(** * Rapa Nui rat / palm ecosystem model: a shallow embedding

    This development embeds the engine of [rat_simulation.py]
    (class [RapaNuiEcosystem]) and checks the properties its specification
    states about it.

    Numbers.  The program computes with IEEE double-precision floats
    (Python [float], [numpy.float64]).  They are modelled here as the real
    numbers [R] of the Standard Library: [+ - * /] are the exact field
    operations, [np.exp], [np.sin], [np.pi] are [exp], [sin], [PI], Python's
    two-argument [min]/[max] and [np.maximum] are [Rmin]/[Rmax], and the
    power [x ** t] with a float exponent is [Rpower x t] (the two agree for
    a positive base [x], which is what the engine uses: 0.9995 and 1.003).
    Rounding, overflow, NaN and infinities are outside this model.

    State.  The engine is a Python object with mutable attributes; it is a
    record here, and a method that assigns to [self] returns the updated
    record (explicit state passing). *)

From Stdlib Require Import Reals Lra Lia ZArith List String.
Import ListNotations.

Local Open Scope R_scope.

(** ** The engine object: the attributes set by [__init__] *)

Record RapaNuiEcosystem : Type := mkEcosystem {
  (* rat population parameters *)
  rat_intrinsic_growth : R;
  rat_natural_mortality : R;
  (* seasonal carrying capacity *)
  rat_base_carrying_capacity_per_tree : R;
  rat_peak_carrying_capacity_per_tree : R;
  nut_season_duration : R;
  rat_minimum_viable_population : R;
  (* palm tree parameters *)
  palm_maturation_time : R;
  palm_max_lifespan : R;
  palm_natural_mortality_young : R;
  palm_natural_mortality_mature : R;
  palm_senescence_age : R;
  palm_max_reproduction : R;
  seed_predation_efficiency : R;
  palm_refugia_effect : R;
  (* human population parameters *)
  initial_humans : R;
  human_carrying_capacity : R;
  human_intrinsic_growth : R;
  (* human impact parameters *)
  clearing_per_person_per_year : R;
  agricultural_intensification : R;
  clearing_efficiency_decline : R;
  enable_human_clearing : bool;
  (* rat harvesting *)
  rat_harvest_rate : R;
  (* initial conditions *)
  initial_rats : R;
  initial_mature_palms : R;
  initial_young_palms : R;
  initial_mature_age : R
}.

(** [RapaNuiEcosystem.__init__]: the constructor takes no argument and
    installs these values. *)
Definition init : RapaNuiEcosystem := {|
  rat_intrinsic_growth := 25 / 10;
  rat_natural_mortality := 1;
  rat_base_carrying_capacity_per_tree := 5 / 10;
  rat_peak_carrying_capacity_per_tree := 4;
  nut_season_duration := 25 / 100;
  rat_minimum_viable_population := 50;
  palm_maturation_time := 70;
  palm_max_lifespan := 500;
  palm_natural_mortality_young := 1 / 100;
  palm_natural_mortality_mature := 5 / 1000;
  palm_senescence_age := 400;
  palm_max_reproduction := 25 / 1000;
  seed_predation_efficiency := 95 / 100;
  palm_refugia_effect := 1 / 10000;
  initial_humans := 20;
  human_carrying_capacity := 3000;
  human_intrinsic_growth := 25 / 1000;
  clearing_per_person_per_year := 5;
  agricultural_intensification := 1003 / 1000;
  clearing_efficiency_decline := 9995 / 10000;
  enable_human_clearing := true;
  rat_harvest_rate := 25 / 100;
  initial_rats := 2;
  initial_mature_palms := 9000000;
  initial_young_palms := 6000000;
  initial_mature_age := 150
|}.

(** The assignment [self.enable_human_clearing = b]; every other attribute
    keeps its value. *)
Definition set_enable_human_clearing (b : bool) (self : RapaNuiEcosystem)
  : RapaNuiEcosystem :=
  {|
    rat_intrinsic_growth := rat_intrinsic_growth self;
    rat_natural_mortality := rat_natural_mortality self;
    rat_base_carrying_capacity_per_tree := rat_base_carrying_capacity_per_tree self;
    rat_peak_carrying_capacity_per_tree := rat_peak_carrying_capacity_per_tree self;
    nut_season_duration := nut_season_duration self;
    rat_minimum_viable_population := rat_minimum_viable_population self;
    palm_maturation_time := palm_maturation_time self;
    palm_max_lifespan := palm_max_lifespan self;
    palm_natural_mortality_young := palm_natural_mortality_young self;
    palm_natural_mortality_mature := palm_natural_mortality_mature self;
    palm_senescence_age := palm_senescence_age self;
    palm_max_reproduction := palm_max_reproduction self;
    seed_predation_efficiency := seed_predation_efficiency self;
    palm_refugia_effect := palm_refugia_effect self;
    initial_humans := initial_humans self;
    human_carrying_capacity := human_carrying_capacity self;
    human_intrinsic_growth := human_intrinsic_growth self;
    clearing_per_person_per_year := clearing_per_person_per_year self;
    agricultural_intensification := agricultural_intensification self;
    clearing_efficiency_decline := clearing_efficiency_decline self;
    enable_human_clearing := b;
    rat_harvest_rate := rat_harvest_rate self;
    initial_rats := initial_rats self;
    initial_mature_palms := initial_mature_palms self;
    initial_young_palms := initial_young_palms self;
    initial_mature_age := initial_mature_age self
  |}.

(** The assignment [ecosystem.palm_maturation_time = v] from outside the
    class: the attributes are plain public fields, and nothing runs when one
    is assigned. *)
Definition set_palm_maturation_time (v : R) (self : RapaNuiEcosystem)
  : RapaNuiEcosystem :=
  {|
    rat_intrinsic_growth := rat_intrinsic_growth self;
    rat_natural_mortality := rat_natural_mortality self;
    rat_base_carrying_capacity_per_tree := rat_base_carrying_capacity_per_tree self;
    rat_peak_carrying_capacity_per_tree := rat_peak_carrying_capacity_per_tree self;
    nut_season_duration := nut_season_duration self;
    rat_minimum_viable_population := rat_minimum_viable_population self;
    palm_maturation_time := v;
    palm_max_lifespan := palm_max_lifespan self;
    palm_natural_mortality_young := palm_natural_mortality_young self;
    palm_natural_mortality_mature := palm_natural_mortality_mature self;
    palm_senescence_age := palm_senescence_age self;
    palm_max_reproduction := palm_max_reproduction self;
    seed_predation_efficiency := seed_predation_efficiency self;
    palm_refugia_effect := palm_refugia_effect self;
    initial_humans := initial_humans self;
    human_carrying_capacity := human_carrying_capacity self;
    human_intrinsic_growth := human_intrinsic_growth self;
    clearing_per_person_per_year := clearing_per_person_per_year self;
    agricultural_intensification := agricultural_intensification self;
    clearing_efficiency_decline := clearing_efficiency_decline self;
    enable_human_clearing := enable_human_clearing self;
    rat_harvest_rate := rat_harvest_rate self;
    initial_rats := initial_rats self;
    initial_mature_palms := initial_mature_palms self;
    initial_young_palms := initial_young_palms self;
    initial_mature_age := initial_mature_age self
  |}.

(** The assignment [ecosystem.nut_season_duration = v]. *)
Definition set_nut_season_duration (v : R) (self : RapaNuiEcosystem)
  : RapaNuiEcosystem :=
  {|
    rat_intrinsic_growth := rat_intrinsic_growth self;
    rat_natural_mortality := rat_natural_mortality self;
    rat_base_carrying_capacity_per_tree := rat_base_carrying_capacity_per_tree self;
    rat_peak_carrying_capacity_per_tree := rat_peak_carrying_capacity_per_tree self;
    nut_season_duration := v;
    rat_minimum_viable_population := rat_minimum_viable_population self;
    palm_maturation_time := palm_maturation_time self;
    palm_max_lifespan := palm_max_lifespan self;
    palm_natural_mortality_young := palm_natural_mortality_young self;
    palm_natural_mortality_mature := palm_natural_mortality_mature self;
    palm_senescence_age := palm_senescence_age self;
    palm_max_reproduction := palm_max_reproduction self;
    seed_predation_efficiency := seed_predation_efficiency self;
    palm_refugia_effect := palm_refugia_effect self;
    initial_humans := initial_humans self;
    human_carrying_capacity := human_carrying_capacity self;
    human_intrinsic_growth := human_intrinsic_growth self;
    clearing_per_person_per_year := clearing_per_person_per_year self;
    agricultural_intensification := agricultural_intensification self;
    clearing_efficiency_decline := clearing_efficiency_decline self;
    enable_human_clearing := enable_human_clearing self;
    rat_harvest_rate := rat_harvest_rate self;
    initial_rats := initial_rats self;
    initial_mature_palms := initial_mature_palms self;
    initial_young_palms := initial_young_palms self;
    initial_mature_age := initial_mature_age self
  |}.

(** ** The state vector [[rats, mature_palms, young_palms, mature_palm_avg_age]] *)

Record State : Type := mkState {
  rats : R;
  mature_palms : R;
  young_palms : R;
  mature_avg_age : R
}.

(** [np.maximum(state, 0)], componentwise. *)
Definition clamp (state : State) : State :=
  {| rats := Rmax (rats state) 0;
     mature_palms := Rmax (mature_palms state) 0;
     young_palms := Rmax (young_palms state) 0;
     mature_avg_age := Rmax (mature_avg_age state) 0 |}.

Definition nonneg_state (s : State) : Prop :=
  0 <= rats s /\ 0 <= mature_palms s /\ 0 <= young_palms s /\ 0 <= mature_avg_age s.

(** ** Forcing functions *)

(** [human_population]: K / (1 + ((K - P0) / P0) * exp(-r t)). *)
Definition human_population (self : RapaNuiEcosystem) (t : R) : R :=
  let K := human_carrying_capacity self in
  let P0 := initial_humans self in
  let r := human_intrinsic_growth self in
  K / (1 + ((K - P0) / P0) * exp (- r * t)).

(** The denominator [1 + ((K - P0) / P0) * exp (- r t)] of that curve. *)
Definition logistic_denominator (self : RapaNuiEcosystem) (t : R) : R :=
  1 + ((human_carrying_capacity self - initial_humans self) /
       initial_humans self) * exp (- human_intrinsic_growth self * t).

Definition seasonal_factor (t : R) : R :=
  (5 / 10) * (1 + sin (2 * PI * t - PI / 2)).

Definition carrying_capacity_per_tree (self : RapaNuiEcosystem) (t : R) : R :=
  rat_base_carrying_capacity_per_tree self +
  seasonal_factor t *
  (rat_peak_carrying_capacity_per_tree self -
   rat_base_carrying_capacity_per_tree self).

(** [seasonal_rat_carrying_capacity]. *)
Definition seasonal_rat_carrying_capacity
    (self : RapaNuiEcosystem) (t : R) (mature_palms : R) : R :=
  Rmax (rat_minimum_viable_population self)
       (mature_palms * carrying_capacity_per_tree self t).

(** ** The rule set of [ecosystem_dynamics]

    Each local variable of the method is a definition of its own, named as
    in the source, so that the statements below can speak about it.  All of
    them take the state [s] AFTER the clamp of the first line of the method;
    [ecosystem_dynamics] below applies [clamp] and passes the result on. *)

Definition total_palms (s : State) : R := mature_palms s + young_palms s.

Definition humans (self : RapaNuiEcosystem) (t : R) : R := human_population self t.

(** Age-dependent mortality of mature palms, in the three steps of the
    source.  First the senescence branch: the base rate below
    [palm_senescence_age], scaled up linearly with the age past it. *)
Definition senescent_mortality (self : RapaNuiEcosystem) (mature_avg_age : R) : R :=
  if Rlt_dec mature_avg_age (palm_senescence_age self)
  then palm_natural_mortality_mature self
  else
    let senescence_factor := (mature_avg_age - palm_senescence_age self) / 100 in
    palm_natural_mortality_mature self * (1 + 2 * senescence_factor).

Definition lifespan_factor (self : RapaNuiEcosystem) (mature_avg_age : R) : R :=
  (mature_avg_age - palm_max_lifespan self * (8 / 10)) /
  (palm_max_lifespan self * (2 / 10)).

(** Then the lifespan branch, past 80% of [palm_max_lifespan]. *)
Definition lifespan_mortality (self : RapaNuiEcosystem) (mature_avg_age : R) : R :=
  let mature_mortality := senescent_mortality self mature_avg_age in
  if Rgt_dec mature_avg_age (palm_max_lifespan self * (8 / 10))
  then mature_mortality * (1 + 5 * lifespan_factor self mature_avg_age)
  else mature_mortality.

(** Then the cap: [min(mature_mortality, 0.1)]. *)
Definition mature_mortality (self : RapaNuiEcosystem) (mature_avg_age : R) : R :=
  Rmin (lifespan_mortality self mature_avg_age) (1 / 10).

Definition rat_carrying_capacity (self : RapaNuiEcosystem) (s : State) (t : R) : R :=
  seasonal_rat_carrying_capacity self t (mature_palms s).

Definition rat_harvest_pressure (self : RapaNuiEcosystem) (t : R) : R :=
  humans self t * rat_harvest_rate self * Rmin 1 (t / 150).

Definition rat_harvest (self : RapaNuiEcosystem) (s : State) (t : R) : R :=
  if enable_human_clearing self
  then Rmin (rat_harvest_pressure self t) (rats s * (4 / 10))
  else 0.

(** The harvest actually subtracted in [rat_growth]: the whole of
    [rat_harvest] above the minimum viable population, and in the small
    population branch [rat_harvest * (0.1 if enable_human_clearing else 0)]. *)
Definition rat_harvest_applied (self : RapaNuiEcosystem) (s : State) (t : R) : R :=
  if Rgt_dec (rats s) (rat_minimum_viable_population self)
  then rat_harvest self s t
  else rat_harvest self s t *
       (if enable_human_clearing self then 1 / 10 else 0).

Definition rat_growth (self : RapaNuiEcosystem) (s : State) (t : R) : R :=
  if Rgt_dec (rats s) (rat_minimum_viable_population self)
  then
    rats s * rat_intrinsic_growth self *
      (1 - rats s / rat_carrying_capacity self s t) -
    rats s * rat_natural_mortality self -
    rat_harvest self s t
  else
    rats s * rat_intrinsic_growth self * (5 / 10) *
      (1 - rats s / rat_carrying_capacity self s t) -
    rats s * rat_natural_mortality self -
    rat_harvest self s t *
      (if enable_human_clearing self then 1 / 10 else 0).

Definition clearing_efficiency (self : RapaNuiEcosystem) (s : State) (t : R) : R :=
  Rpower (clearing_efficiency_decline self) t *
  (total_palms s / (initial_mature_palms self + initial_young_palms self)).

Definition clearing_rate (self : RapaNuiEcosystem) (s : State) (t : R) : R :=
  if enable_human_clearing self
  then humans self t * clearing_per_person_per_year self *
       Rpower (agricultural_intensification self) t *
       clearing_efficiency self s t
  else 0.

Definition accessible_mature (self : RapaNuiEcosystem) (s : State) : R :=
  mature_palms s * (1 - palm_refugia_effect self).

Definition mature_palm_clearing (self : RapaNuiEcosystem) (s : State) (t : R) : R :=
  if enable_human_clearing self
  then Rmin (clearing_rate self s t * (75 / 100))
            (accessible_mature self s * (18 / 100))
  else 0.

Definition mature_palm_loss (self : RapaNuiEcosystem) (s : State) (t : R) : R :=
  mature_palms s * mature_mortality self (mature_avg_age s) +
  mature_palm_clearing self s t.

Definition mature_palm_recruitment (self : RapaNuiEcosystem) (s : State) : R :=
  young_palms s / palm_maturation_time self.

Definition mature_palm_change (self : RapaNuiEcosystem) (s : State) (t : R) : R :=
  mature_palm_recruitment self s - mature_palm_loss self s t.

Definition avg_age_change (self : RapaNuiEcosystem) (s : State) : R :=
  if Rgt_dec (mature_palms s) 100
  then
    let age_increase := 1 in
    let recruit_age_effect :=
      (mature_palm_recruitment self s / mature_palms s) *
      (70 - mature_avg_age s) in
    age_increase + recruit_age_effect
  else 0.

Definition refugia_palms (self : RapaNuiEcosystem) (s : State) : R :=
  mature_palms s * palm_refugia_effect self.

Definition accessible_palms (self : RapaNuiEcosystem) (s : State) : R :=
  mature_palms s * (1 - palm_refugia_effect self).

Definition refugia_reproduction (self : RapaNuiEcosystem) (s : State) : R :=
  refugia_palms self s * palm_max_reproduction self * (11 / 10).

Definition accessible_reproduction (self : RapaNuiEcosystem) (s : State) : R :=
  accessible_palms self s * palm_max_reproduction self.

Definition potential_reproduction (self : RapaNuiEcosystem) (s : State) : R :=
  refugia_reproduction self s + accessible_reproduction self s.

Definition rat_density_effect (s : State) : R := rats s / (rats s + 3000).

Definition predation_pressure (self : RapaNuiEcosystem) (s : State) : R :=
  seed_predation_efficiency self * rat_density_effect s.

Definition refugia_survival (self : RapaNuiEcosystem) (s : State) : R :=
  refugia_reproduction self s * (1 - predation_pressure self s * (4 / 10)).

Definition accessible_survival (self : RapaNuiEcosystem) (s : State) : R :=
  accessible_reproduction self s * (1 - predation_pressure self s).

Definition actual_reproduction (self : RapaNuiEcosystem) (s : State) : R :=
  refugia_survival self s + accessible_survival self s.

Definition accessible_young (self : RapaNuiEcosystem) (s : State) : R :=
  young_palms s * (1 - palm_refugia_effect self).

Definition young_palm_clearing (self : RapaNuiEcosystem) (s : State) (t : R) : R :=
  if enable_human_clearing self
  then Rmin (clearing_rate self s t * (25 / 100))
            (accessible_young self s * (12 / 100))
  else 0.

Definition young_palm_loss (self : RapaNuiEcosystem) (s : State) (t : R) : R :=
  young_palms s * palm_natural_mortality_young self +
  young_palms s / palm_maturation_time self +
  young_palm_clearing self s t.

Definition young_palm_change (self : RapaNuiEcosystem) (s : State) (t : R) : R :=
  actual_reproduction self s - young_palm_loss self s t.

(** [ecosystem_dynamics(state, t)]: the returned list
    [[rat_growth, mature_palm_change, young_palm_change, avg_age_change]]
    is a [State]-shaped record of rates. *)
Definition ecosystem_dynamics (self : RapaNuiEcosystem) (state : State) (t : R)
  : State :=
  let s := clamp state in
  {| rats := rat_growth self s t;
     mature_palms := mature_palm_change self s t;
     young_palms := young_palm_change self s t;
     mature_avg_age := avg_age_change self s |}.

(** ** The simulation driver and the comparison layer *)

(** What a call yields: a value, or a raised exception with its message. *)
Inductive outcome (A : Type) : Type :=
| Raised (message : string)
| Returned (value : A).
Arguments Raised {A} message.
Arguments Returned {A} value.

(** [np.linspace(start, stop, num)]: [num] evenly spaced samples, both ends
    included. *)
Definition linspace (start stop : R) (num : nat) : list R :=
  map (fun i => start + INR i * ((stop - start) / INR (num - 1))) (seq 0 num).

(** The tuple returned by [run_simulation]:
    [(t, rats, mature_palms, young_palms, total_palms, humans, mature_avg_age)]. *)
Record Trajectory : Type := mkTrajectory {
  tr_t : list R;
  tr_rats : list R;
  tr_mature_palms : list R;
  tr_young_palms : list R;
  tr_total_palms : list R;
  tr_humans : list R;
  tr_mature_avg_age : list R
}.

Definition initial_state (self : RapaNuiEcosystem) : State :=
  {| rats := initial_rats self;
     mature_palms := initial_mature_palms self;
     young_palms := initial_young_palms self;
     mature_avg_age := initial_mature_age self |}.

(** A configuration the specification calls invalid: a negative rate, a
    maturation time that is not positive, or a zero carrying-capacity
    bound. *)
Definition invalid_configuration (self : RapaNuiEcosystem) : Prop :=
  rat_intrinsic_growth self < 0 \/
  rat_natural_mortality self < 0 \/
  palm_natural_mortality_young self < 0 \/
  palm_natural_mortality_mature self < 0 \/
  palm_max_reproduction self < 0 \/
  human_intrinsic_growth self < 0 \/
  rat_harvest_rate self < 0 \/
  palm_maturation_time self <= 0 \/
  rat_base_carrying_capacity_per_tree self = 0 \/
  rat_peak_carrying_capacity_per_tree self = 0 \/
  human_carrying_capacity self = 0.

Section Driver.

(** [scipy.integrate.odeint(func, y0, t)]: the numerical integrator is a
    library outside the repository; the driver only hands it the rate
    function, the initial state and the time grid, and slices its
    result. *)
Variable odeint : (State -> R -> State) -> State -> list R -> list State.

(** [run_simulation(years)].  The body has no [raise] and no check of the
    attributes: it builds the grid, calls the integrator and returns. *)
Definition run_simulation (self : RapaNuiEcosystem) (years : nat)
  : outcome Trajectory :=
  let t := linspace 0 (INR years) (years * 8) in
  let solution := odeint (ecosystem_dynamics self) (initial_state self) t in
  Returned
    {| tr_t := t;
       tr_rats := map rats solution;
       tr_mature_palms := map mature_palms solution;
       tr_young_palms := map young_palms solution;
       tr_total_palms := map total_palms solution;
       tr_humans := map (human_population self) t;
       tr_mature_avg_age := map mature_avg_age solution |}.

(** [run_comparison_simulation(years)].  The method assigns to
    [self.enable_human_clearing] before each of its two runs, so it
    yields the engine as it is left together with the result: the
    rats-only trajectory and the rats-and-humans trajectory (the returned
    ten-tuple is made of columns of these two).  The printing and
    plotting calls in between read the engine and the trajectories and
    assign to neither. *)
Definition run_comparison_simulation (self : RapaNuiEcosystem) (years : nat)
  : RapaNuiEcosystem * outcome (Trajectory * Trajectory) :=
  let self := set_enable_human_clearing false self in
  match run_simulation self years with
  | Raised e => (self, Raised e)
  | Returned rats_only =>
      let self := set_enable_human_clearing true self in
      match run_simulation self years with
      | Raised e => (self, Raised e)
      | Returned rats_humans => (self, Returned (rats_only, rats_humans))
      end
  end.

End Driver.

(** ** The comparison statistics

    [print_comparison_statistics] prints; what it prints is computed by the
    reductions below, named after the locals of the method.  The record
    [ComparisonStatistics] holds the printed values. *)

Definition bind {A B : Type} (c : outcome A) (k : A -> outcome B) : outcome B :=
  match c with
  | Raised e => Raised e
  | Returned a => k a
  end.

Notation "x <- c ;; k" := (bind c (fun x => k))
  (at level 61, c at next level, right associativity).

(** [int(x)] of a float: truncation toward zero. *)
Definition py_int (x : R) : Z :=
  if Rle_dec 0 x then Int_part x else (- Int_part (- x))%Z.

(** [xs[-1]]: the last item, [IndexError] on an empty sequence. *)
Definition last_item (xs : list R) : outcome R :=
  match xs with
  | [] => Raised "IndexError"
  | x :: xs' => Returned (last xs' x)
  end.

(** [xs[i]], [IndexError] out of range. *)
Definition item (xs : list R) (i : nat) : outcome R :=
  match nth_error xs i with
  | Some x => Returned x
  | None => Raised "IndexError"
  end.

(** [dates = 1200 + t]. *)
Definition dates_of (t : list R) : list R := map (fun time => 1200 + time) t.

(** [np.where(cond)[0]]: the indices at which the condition holds, in
    ascending order. *)
Fixpoint where_from (i : nat) (cond : R -> bool) (xs : list R) : list nat :=
  match xs with
  | [] => []
  | x :: xs' =>
      if cond x then i :: where_from (S i) cond xs'
      else where_from (S i) cond xs'
  end.

Definition np_where (cond : R -> bool) (xs : list R) : list nat :=
  where_from 0 cond xs.

(** The test [total_palms < threshold] on one sample. *)
Definition below (threshold x : R) : bool :=
  if Rlt_dec x threshold then true else false.

(** One cell of the milestone table:
    [int(dates[indices[0]]) if len(indices) > 0 else "Not reached"], with
    [indices = np.where(total_palms < threshold)[0]]; [None] stands for
    "Not reached". *)
Definition milestone_year (dates total_palms : list R) (threshold : R)
  : outcome (option Z) :=
  match np_where (below threshold) total_palms with
  | [] => Returned None
  | i :: _ => d <- item dates i ;; Returned (Some (py_int d))
  end.

(** The last cell of a row: [humans_year - rats_year], or "N/A" ([None])
    when one of the two is "Not reached". *)
Definition milestone_difference (rats_year humans_year : option Z) : option Z :=
  match rats_year, humans_year with
  | Some r, Some h => Some (h - r)%Z
  | _, _ => None
  end.

Definition thresholds : list R := [10000000; 5000000; 1000000; 100000; 10000].

Record MilestoneRow : Type := mkMilestoneRow {
  row_threshold : R;
  row_rats_year : option Z;
  row_humans_year : option Z;
  row_difference : option Z
}.

Definition milestone_row (dates_rats total_palms_rats
                          dates_humans total_palms_humans : list R)
                         (threshold : R) : outcome MilestoneRow :=
  rats_year <- milestone_year dates_rats total_palms_rats threshold ;;
  humans_year <- milestone_year dates_humans total_palms_humans threshold ;;
  Returned {| row_threshold := threshold;
              row_rats_year := rats_year;
              row_humans_year := humans_year;
              row_difference := milestone_difference rats_year humans_year |}.

(** The [for threshold in thresholds] loop: the rows in order, stopping at
    the first exception. *)
Fixpoint milestone_rows (dates_rats total_palms_rats
                         dates_humans total_palms_humans : list R)
                        (ths : list R) : outcome (list MilestoneRow) :=
  match ths with
  | [] => Returned []
  | th :: ths' =>
      row <- milestone_row dates_rats total_palms_rats
                           dates_humans total_palms_humans th ;;
      rows <- milestone_rows dates_rats total_palms_rats
                             dates_humans total_palms_humans ths' ;;
      Returned (row :: rows)
  end.

(** Python's [max(xs)] on a sequence: [ValueError] when it is empty. *)
Definition py_max (xs : list R) : outcome R :=
  match xs with
  | [] => Raised "ValueError"
  | x :: xs' => Returned (fold_left Rmax xs' x)
  end.

(** [np.argmax(xs)]: the index of the first occurrence of the maximum. *)
Fixpoint argmax_from (best_index : nat) (best : R) (i : nat) (xs : list R) : nat :=
  match xs with
  | [] => best_index
  | x :: xs' =>
      if Rlt_dec best x then argmax_from i x (S i) xs'
      else argmax_from best_index best (S i) xs'
  end.

Definition np_argmax (xs : list R) : outcome nat :=
  match xs with
  | [] => Raised "ValueError"
  | x :: xs' => Returned (argmax_from 0 x 1 xs')
  end.

(** [(15000000 - final_palms) / 522]: trees lost per year, with the stock
    and the horizon written as constants in the source. *)
Definition decline_rate (final_palms : R) : R := (15000000 - final_palms) / 522.

(** The factor printed under [if rat_decline_rate > 0]. *)
Definition acceleration_factor (final_palms_rats final_palms_humans : R) : option R :=
  if Rgt_dec (decline_rate final_palms_rats) 0
  then Some (decline_rate final_palms_humans / decline_rate final_palms_rats)
  else None.

Record ComparisonStatistics : Type := mkComparisonStatistics {
  timeline : Z;
  final_palms_rats : R;
  final_palms_humans : R;
  final_rats_rats : R;
  final_rats_humans : R;
  remaining_pct_rats : R;
  remaining_pct_humans : R;
  additional_palm_loss : R;
  palm_difference_pct : R;
  peak_rats_rats : R;
  peak_rats_humans : R;
  peak_year_rats : Z;
  peak_year_humans : Z;
  milestones : list MilestoneRow;
  rat_decline_rate : R;
  human_decline_rate : R;
  acceleration : option R
}.

(** [print_comparison_statistics]: the values in the order in which the
    method computes them.  The parameters [mature_avg_age_rats],
    [mature_avg_age_humans] and [humans_humans] of the method are not read
    by its body and are left out. *)
Definition print_comparison_statistics
    (t_rats total_palms_rats rats_rats
     t_humans total_palms_humans rats_humans : list R)
  : outcome ComparisonStatistics :=
  let dates_rats := dates_of t_rats in
  let dates_humans := dates_of t_humans in
  t_end <- last_item t_rats ;;
  final_palms_rats <- last_item total_palms_rats ;;
  final_palms_humans <- last_item total_palms_humans ;;
  final_rats_rats <- last_item rats_rats ;;
  final_rats_humans <- last_item rats_humans ;;
  peak_rats_rats <- py_max rats_rats ;;
  peak_rats_humans <- py_max rats_humans ;;
  argmax_rats <- np_argmax rats_rats ;;
  peak_date_rats <- item dates_rats argmax_rats ;;
  argmax_humans <- np_argmax rats_humans ;;
  peak_date_humans <- item dates_humans argmax_humans ;;
  rows <- milestone_rows dates_rats total_palms_rats
                         dates_humans total_palms_humans thresholds ;;
  Returned
    {| timeline := py_int t_end;
       final_palms_rats := final_palms_rats;
       final_palms_humans := final_palms_humans;
       final_rats_rats := final_rats_rats;
       final_rats_humans := final_rats_humans;
       remaining_pct_rats := final_palms_rats / 15000000 * 100;
       remaining_pct_humans := final_palms_humans / 15000000 * 100;
       additional_palm_loss := final_palms_rats - final_palms_humans;
       palm_difference_pct :=
         (final_palms_rats - final_palms_humans) / final_palms_rats * 100;
       peak_rats_rats := peak_rats_rats;
       peak_rats_humans := peak_rats_humans;
       peak_year_rats := py_int peak_date_rats;
       peak_year_humans := py_int peak_date_humans;
       milestones := rows;
       rat_decline_rate := decline_rate final_palms_rats;
       human_decline_rate := decline_rate final_palms_humans;
       acceleration := acceleration_factor final_palms_rats final_palms_humans |}.

(** A sequence that never decreases, as a time grid is. *)
Definition nondecreasing (xs : list R) : Prop :=
  forall i j a b,
    (i <= j)%nat -> nth_error xs i = Some a -> nth_error xs j = Some b -> a <= b.

(** ** The taphonomic model of [RatNutGnawModel.py] *)

Module PalmNutGnawModel.

Record model : Type := mkModel {
  hole_fraction : R;
  shell_radius : R;
  shell_surface_area : R;
  hole_area : R
}.

(** [PalmNutGnawModel.__init__(hole_fraction=0.20, shell_radius=1.0)]. *)
Definition init (hole_fraction shell_radius : R) : model :=
  let shell_surface_area := 4 * PI * shell_radius ^ 2 in
  {| hole_fraction := hole_fraction;
     shell_radius := shell_radius;
     shell_surface_area := shell_surface_area;
     hole_area := hole_fraction * shell_surface_area |}.

Definition simple_probability_model (self : model) : R :=
  1 - hole_fraction self.

Definition fragment_area_fraction (mean_fragment_radius_fraction : R) : R :=
  PI * mean_fragment_radius_fraction ^ 2 / (4 * PI).

Definition overlap_area_approx (self : model) (mean_fragment_radius_fraction : R) : R :=
  hole_fraction self + fragment_area_fraction mean_fragment_radius_fraction +
  2 * sqrt (hole_fraction self * fragment_area_fraction mean_fragment_radius_fraction).

(** [analytical_approximation(mean_fragment_radius_fraction=0.1)]; the local
    [hole_radius_fraction] of the source is computed and not used. *)
Definition analytical_approximation
    (self : model) (mean_fragment_radius_fraction : R) : R :=
  let prob_overlap := Rmin 1 (overlap_area_approx self mean_fragment_radius_fraction) in
  1 - prob_overlap.

(** The deterministic steps of [fragment_size_model]: the parameters of the
    log-normal law, and what is done to one draw of fragment sizes between
    the two calls of the random generator. *)
Definition n_fragments (mean_fragment_area : R) : Z :=
  Z.max 5 (py_int (1 / mean_fragment_area)).

Definition sigma (fragment_area_cv : R) : R :=
  sqrt (ln (1 + fragment_area_cv ^ 2)).

Definition mu (mean_fragment_area fragment_area_cv : R) : R :=
  ln mean_fragment_area - 5 / 10 * sigma fragment_area_cv ^ 2.

(** [np.sum]. *)
Definition np_sum (xs : list R) : R := fold_right Rplus 0 xs.

(** [fragment_sizes / np.sum(fragment_sizes)]. *)
Definition normalize (fragment_sizes : list R) : list R :=
  map (fun size => size / np_sum fragment_sizes) fragment_sizes.

(** [np.minimum(1.0, fragment_sizes + self.hole_fraction)]. *)
Definition gnaw_probabilities (self : model) (fragment_sizes : list R) : list R :=
  map (fun size => Rmin 1 (size + hole_fraction self)) fragment_sizes.

(** [1 - np.sum(contains_gnaw) / len(fragment_sizes)]. *)
Definition fraction_without (contains_gnaw : list R) (n : nat) : R :=
  1 - np_sum contains_gnaw / INR n.

(** The deterministic steps of [geometric_overlap_model], on the unit
    circle ([circle_radius = 1.0]). *)
Definition hole_radius (self : model) : R := sqrt (hole_fraction self / PI).

Definition hole_y_max (hole_x : R) : R := sqrt (1 ^ 2 - hole_x ^ 2).

(** The bounds handed to [np.random.uniform] for the centre of the hole;
    the draw is from the half-open interval that holds the low bound. *)
Definition hole_x_low (self : model) : R := - 1 + hole_radius self.

Definition hole_x_high (self : model) : R := 1 - hole_radius self.

Definition hole_y_low (self : model) (hole_x : R) : R :=
  - hole_y_max hole_x + hole_radius self.

Definition hole_y_high (self : model) (hole_x : R) : R :=
  hole_y_max hole_x - hole_radius self.

End PalmNutGnawModel.

(** * Properties *)

(** ** The clamp *)

Lemma clamp_nonneg (state : State) : nonneg_state (clamp state).
Proof.
  unfold nonneg_state, clamp; simpl.
  repeat split; apply Rmax_r.
Qed.

Lemma clamp_id (s : State) : nonneg_state s -> clamp s = s.
Proof.
  destruct s as [r m y a].
  unfold nonneg_state, clamp; simpl.
  intros (Hr & Hm & Hy & Ha).
  rewrite !Rmax_left by assumption.
  reflexivity.
Qed.

Lemma clamp_idempotent (state : State) : clamp (clamp state) = clamp state.
Proof. apply clamp_id, clamp_nonneg. Qed.

Lemma ecosystem_dynamics_rates (self : RapaNuiEcosystem) (state : State) (t : R) :
  rats (ecosystem_dynamics self state t) = rat_growth self (clamp state) t /\
  mature_palms (ecosystem_dynamics self state t) = mature_palm_change self (clamp state) t /\
  young_palms (ecosystem_dynamics self state t) = young_palm_change self (clamp state) t /\
  mature_avg_age (ecosystem_dynamics self state t) = avg_age_change self (clamp state).
Proof. repeat split. Qed.

(** The rates returned by [ecosystem_dynamics] are the rule set evaluated at
    the clamped state, whose four components are non-negative: a negative
    component of the argument never reaches a rate formula. *)
Lemma ecosystem_dynamics_clamps (self : RapaNuiEcosystem) (state : State) (t : R) :
  nonneg_state (clamp state) /\
  ecosystem_dynamics self state t = ecosystem_dynamics self (clamp state) t /\
  rats (ecosystem_dynamics self state t) = rat_growth self (clamp state) t /\
  mature_palms (ecosystem_dynamics self state t) = mature_palm_change self (clamp state) t /\
  young_palms (ecosystem_dynamics self state t) = young_palm_change self (clamp state) t /\
  mature_avg_age (ecosystem_dynamics self state t) = avg_age_change self (clamp state).
Proof.
  split; [apply clamp_nonneg|].
  unfold ecosystem_dynamics.
  rewrite clamp_idempotent.
  repeat split.
Qed.

(** The harvest subtracted in [rat_growth] is [rat_harvest_applied]. *)
Lemma rat_growth_harvest (self : RapaNuiEcosystem) (s : State) (t : R) :
  rat_growth self s t =
  rats s * rat_intrinsic_growth self *
    (if Rgt_dec (rats s) (rat_minimum_viable_population self) then 1 else 5 / 10) *
    (1 - rats s / rat_carrying_capacity self s t) -
  rats s * rat_natural_mortality self -
  rat_harvest_applied self s t.
Proof.
  unfold rat_growth, rat_harvest_applied.
  destruct (Rgt_dec (rats s) (rat_minimum_viable_population self)); ring.
Qed.

(** ** Disturbance switched off *)

(** C3.  With [enable_human_clearing] cleared, [ecosystem_dynamics] computes
    a zero clearing rate, zero clearing of mature and of young palms and a
    zero rat harvest (also as applied in the rat growth), at every state and
    every time, whatever the human-population parameters are. *)
Theorem disturbance_off_no_clearing_no_harvest
    (self : RapaNuiEcosystem) (state : State) (t : R) :
  enable_human_clearing self = false ->
  clearing_rate self (clamp state) t = 0 /\
  mature_palm_clearing self (clamp state) t = 0 /\
  young_palm_clearing self (clamp state) t = 0 /\
  rat_harvest self (clamp state) t = 0 /\
  rat_harvest_applied self (clamp state) t = 0.
Proof.
  intros Hoff.
  unfold clearing_rate, mature_palm_clearing, young_palm_clearing,
    rat_harvest_applied, rat_harvest.
  rewrite Hoff.
  repeat split.
  destruct (Rgt_dec _ _); ring.
Qed.

Lemma disturbance_off_no_clearing_no_harvest_witness :
  enable_human_clearing (set_enable_human_clearing false init) = false /\
  clearing_rate (set_enable_human_clearing false init)
    (clamp (initial_state init)) 100 = 0 /\
  mature_palm_clearing (set_enable_human_clearing false init)
    (clamp (initial_state init)) 100 = 0 /\
  young_palm_clearing (set_enable_human_clearing false init)
    (clamp (initial_state init)) 100 = 0 /\
  rat_harvest (set_enable_human_clearing false init)
    (clamp (initial_state init)) 100 = 0 /\
  rat_harvest_applied (set_enable_human_clearing false init)
    (clamp (initial_state init)) 100 = 0.
Proof.
  split; [reflexivity|].
  apply (disturbance_off_no_clearing_no_harvest
           (set_enable_human_clearing false init) (initial_state init) 100).
  reflexivity.
Defined.

(** ** Carrying-capacity floor *)

(** C5.  The seasonal rat carrying capacity is never below
    [rat_minimum_viable_population], at every time and for every number of
    mature palms (zero included; the bound does not even need the number to
    be non-negative), and so is the capacity that [ecosystem_dynamics] puts
    under the division of the logistic term. *)
Theorem carrying_capacity_floor
    (self : RapaNuiEcosystem) (t mature_palms : R) (state : State) :
  rat_minimum_viable_population self <=
    seasonal_rat_carrying_capacity self t mature_palms /\
  rat_minimum_viable_population self <=
    rat_carrying_capacity self (clamp state) t.
Proof.
  unfold rat_carrying_capacity, seasonal_rat_carrying_capacity.
  split; apply Rmax_l.
Qed.

(** ** Rat harvest *)

(** C10.  With the disturbance flag set, a non-negative state and [0 <= t],
    the rat harvest is [min (humans * rat_harvest_rate * min (1, t/150),
    0.4 * rats)]; it is at most 40% of the rats (and so is the part of it
    subtracted in the rat growth), it is 0 at [t = 0], and from [t = 150] on
    the ramp factor is 1. *)
Theorem rat_harvest_bound_and_ramp
    (self : RapaNuiEcosystem) (state : State) (t : R) :
  enable_human_clearing self = true ->
  nonneg_state state ->
  0 <= t ->
  rat_harvest self (clamp state) t =
    Rmin (humans self t * rat_harvest_rate self * Rmin 1 (t / 150))
         (4 / 10 * rats state) /\
  rat_harvest self (clamp state) t <= 4 / 10 * rats state /\
  rat_harvest_applied self (clamp state) t <= 4 / 10 * rats state /\
  rat_harvest self (clamp state) 0 = 0 /\
  (150 <= t ->
   Rmin 1 (t / 150) = 1 /\
   rat_harvest_pressure self t = humans self t * rat_harvest_rate self).
Proof.
  intros Hon Hs Ht.
  rewrite (clamp_id state Hs).
  destruct Hs as (Hr & _).
  assert (Hbound : forall u, rat_harvest self state u <= 4 / 10 * rats state).
  { intros u. unfold rat_harvest. rewrite Hon.
    eapply Rle_trans; [apply Rmin_r | lra]. }
  split; [| split; [| split; [| split]]].
  - unfold rat_harvest, rat_harvest_pressure. rewrite Hon.
    f_equal. ring.
  - apply Hbound.
  - unfold rat_harvest_applied. rewrite Hon.
    specialize (Hbound t).
    destruct (Rgt_dec _ _); lra.
  - unfold rat_harvest, rat_harvest_pressure. rewrite Hon.
    replace (0 / 150) with 0 by lra.
    rewrite (Rmin_right 1 0) by lra.
    rewrite Rmult_0_r.
    apply Rmin_left. lra.
  - intros H150.
    assert (Hramp : Rmin 1 (t / 150) = 1) by (apply Rmin_left; lra).
    split; [exact Hramp|].
    unfold rat_harvest_pressure. rewrite Hramp. ring.
Qed.

Lemma rat_harvest_bound_and_ramp_witness :
  rat_harvest init (clamp (initial_state init)) 200 =
    Rmin (humans init 200 * rat_harvest_rate init * Rmin 1 (200 / 150))
         (4 / 10 * rats (initial_state init)) /\
  rat_harvest init (clamp (initial_state init)) 200 <=
    4 / 10 * rats (initial_state init) /\
  rat_harvest_applied init (clamp (initial_state init)) 200 <=
    4 / 10 * rats (initial_state init) /\
  rat_harvest init (clamp (initial_state init)) 0 = 0 /\
  (150 <= 200 ->
   Rmin 1 (200 / 150) = 1 /\
   rat_harvest_pressure init 200 = humans init 200 * rat_harvest_rate init).
Proof.
  apply (rat_harvest_bound_and_ramp init (initial_state init) 200).
  - reflexivity.
  - unfold nonneg_state; simpl; lra.
  - lra.
Defined.

(** ** Human population *)

Section Logistic.

Variable self : RapaNuiEcosystem.
Hypothesis HP0 : 0 < initial_humans self.
Hypothesis HK : initial_humans self < human_carrying_capacity self.
Hypothesis Hr : 0 < human_intrinsic_growth self.

Lemma human_population_denominator (t : R) :
  human_population self t =
  human_carrying_capacity self / logistic_denominator self t.
Proof. reflexivity. Qed.

Lemma logistic_ratio_pos :
  0 < (human_carrying_capacity self - initial_humans self) / initial_humans self.
Proof. apply Rdiv_lt_0_compat; lra. Qed.

Lemma logistic_denominator_gt_1 (t : R) : 1 < logistic_denominator self t.
Proof.
  unfold logistic_denominator.
  pose proof logistic_ratio_pos as Hc.
  pose proof (exp_pos (- human_intrinsic_growth self * t)) as He.
  pose proof (Rmult_lt_0_compat _ _ Hc He).
  lra.
Qed.

Lemma logistic_denominator_at_0 :
  logistic_denominator self 0 = human_carrying_capacity self / initial_humans self.
Proof.
  unfold logistic_denominator.
  rewrite Rmult_0_r, exp_0.
  field. lra.
Qed.

Lemma logistic_denominator_decreasing (t1 t2 : R) :
  t1 < t2 -> logistic_denominator self t2 < logistic_denominator self t1.
Proof.
  intros Hlt. unfold logistic_denominator.
  apply Rplus_lt_compat_l, Rmult_lt_compat_l; [apply logistic_ratio_pos|].
  apply exp_increasing.
  apply Ropp_lt_cancel.
  rewrite <- !Ropp_mult_distr_l, !Ropp_involutive.
  apply Rmult_lt_compat_l; assumption.
Qed.

Lemma human_population_at_0 : human_population self 0 = initial_humans self.
Proof.
  rewrite human_population_denominator, logistic_denominator_at_0.
  field. split; lra.
Qed.

Lemma human_population_increasing (t1 t2 : R) :
  t1 < t2 -> human_population self t1 < human_population self t2.
Proof.
  intros Hlt.
  rewrite !human_population_denominator.
  pose proof (logistic_denominator_gt_1 t1).
  pose proof (logistic_denominator_gt_1 t2).
  unfold Rdiv.
  apply Rmult_lt_compat_l; [lra|].
  apply Rinv_lt_contravar.
  - apply Rmult_lt_0_compat; lra.
  - apply logistic_denominator_decreasing; assumption.
Qed.

Lemma human_population_lt_capacity (t : R) :
  human_population self t < human_carrying_capacity self.
Proof.
  rewrite human_population_denominator.
  pose proof (logistic_denominator_gt_1 t) as Hd.
  apply Rmult_lt_reg_r with (logistic_denominator self t); [lra|].
  unfold Rdiv. rewrite Rmult_assoc, Rinv_l by lra.
  rewrite Rmult_1_r.
  assert (0 < human_carrying_capacity self) by lra.
  nra.
Qed.

Lemma human_population_ge_initial (t : R) :
  0 <= t -> initial_humans self <= human_population self t.
Proof.
  intros [Hpos | <-].
  - rewrite <- human_population_at_0.
    left. apply human_population_increasing. assumption.
  - rewrite human_population_at_0. apply Rle_refl.
Qed.

End Logistic.

(** C6.  For a configuration with [K > P0 > 0] and [r > 0]: the human
    population at time 0 is exactly [P0]; at every [t >= 0] it lies in
    [[P0, K]]; and it is strictly increasing in [t]. *)
Theorem human_population_logistic
    (self : RapaNuiEcosystem) (t t' : R) :
  0 < initial_humans self ->
  initial_humans self < human_carrying_capacity self ->
  0 < human_intrinsic_growth self ->
  0 <= t ->
  t < t' ->
  human_population self 0 = initial_humans self /\
  initial_humans self <= human_population self t <= human_carrying_capacity self /\
  human_population self t < human_population self t'.
Proof.
  intros HP0 HK Hr Ht Hlt.
  split; [| split; [split |]].
  - apply human_population_at_0; assumption.
  - apply human_population_ge_initial; assumption.
  - left. apply human_population_lt_capacity; assumption.
  - apply human_population_increasing; assumption.
Qed.

Lemma human_population_logistic_witness :
  human_population init 0 = initial_humans init /\
  initial_humans init <= human_population init 100 <= human_carrying_capacity init /\
  human_population init 100 < human_population init 522.
Proof.
  apply (human_population_logistic init 100 522); simpl; lra.
Defined.

(** ** Mortality of mature palms *)

Section Mortality.

Variable self : RapaNuiEcosystem.
Hypothesis Hbase : 0 <= palm_natural_mortality_mature self.
Hypothesis Hlife : 0 < palm_max_lifespan self.

Lemma senescent_mortality_nonneg (a : R) : 0 <= senescent_mortality self a.
Proof.
  unfold senescent_mortality.
  destruct (Rlt_dec a (palm_senescence_age self)) as [Hlt | Hge]; [assumption|].
  apply Rmult_le_pos; [assumption | lra].
Qed.

Lemma senescent_mortality_monotone (a b : R) :
  a <= b -> senescent_mortality self a <= senescent_mortality self b.
Proof.
  intros Hab. unfold senescent_mortality.
  destruct (Rlt_dec a (palm_senescence_age self)) as [Ha | Ha];
    destruct (Rlt_dec b (palm_senescence_age self)) as [Hb | Hb].
  - apply Rle_refl.
  - rewrite <- (Rmult_1_r (palm_natural_mortality_mature self)) at 1.
    apply Rmult_le_compat_l; [assumption | lra].
  - lra.
  - apply Rmult_le_compat_l; [assumption | lra].
Qed.

Lemma lifespan_factor_monotone (a b : R) :
  a <= b -> lifespan_factor self a <= lifespan_factor self b.
Proof.
  intros Hab. unfold lifespan_factor, Rdiv.
  apply Rmult_le_compat_r; [| lra].
  left. apply Rinv_0_lt_compat. lra.
Qed.

Lemma lifespan_factor_nonneg (a : R) :
  palm_max_lifespan self * (8 / 10) <= a -> 0 <= lifespan_factor self a.
Proof.
  intros Ha. unfold lifespan_factor, Rdiv.
  apply Rmult_le_pos; [lra|].
  left. apply Rinv_0_lt_compat. lra.
Qed.

Lemma lifespan_mortality_monotone (a b : R) :
  a <= b -> lifespan_mortality self a <= lifespan_mortality self b.
Proof.
  intros Hab. unfold lifespan_mortality.
  pose proof (senescent_mortality_monotone a b Hab) as Hs.
  pose proof (senescent_mortality_nonneg a) as Hsa.
  pose proof (senescent_mortality_nonneg b) as Hsb.
  destruct (Rgt_dec a (palm_max_lifespan self * (8 / 10))) as [Ha | Ha];
    destruct (Rgt_dec b (palm_max_lifespan self * (8 / 10))) as [Hb | Hb].
  - pose proof (lifespan_factor_monotone a b Hab).
    pose proof (lifespan_factor_nonneg a ltac:(lra)).
    apply Rmult_le_compat; lra.
  - lra.
  - pose proof (lifespan_factor_nonneg b ltac:(lra)) as Hf.
    apply Rle_trans with (senescent_mortality self b); [assumption|].
    rewrite <- (Rmult_1_r (senescent_mortality self b)) at 1.
    apply Rmult_le_compat_l; lra.
  - assumption.
Qed.

Lemma mature_mortality_monotone (a b : R) :
  a <= b -> mature_mortality self a <= mature_mortality self b.
Proof.
  intros Hab. unfold mature_mortality.
  apply Rle_min_compat_r, lifespan_mortality_monotone, Hab.
Qed.

End Mortality.

Lemma mature_mortality_capped (self : RapaNuiEcosystem) (a : R) :
  mature_mortality self a <= 1 / 10.
Proof. unfold mature_mortality. apply Rmin_r. Qed.

(** C4.  For a fixed parameter set (base mortality not negative, maximum
    lifespan positive), the mortality rate of mature palms is non-decreasing
    in [mature_avg_age] (over all ages, the non-negative ones that the
    clamp lets through included), and it is at most 0.1 at every age,
    however large. *)
Theorem mature_mortality_monotone_and_capped
    (self : RapaNuiEcosystem) (age age' : R) :
  0 <= palm_natural_mortality_mature self ->
  0 < palm_max_lifespan self ->
  age <= age' ->
  mature_mortality self age <= mature_mortality self age' /\
  mature_mortality self age' <= 1 / 10.
Proof.
  intros Hbase Hlife Hle.
  split.
  - apply mature_mortality_monotone; assumption.
  - apply mature_mortality_capped.
Qed.

Lemma mature_mortality_monotone_and_capped_witness :
  mature_mortality init 450 <= mature_mortality init 480 /\
  mature_mortality init 480 <= 1 / 10.
Proof.
  apply (mature_mortality_monotone_and_capped init 450 480); simpl; lra.
Defined.

(** ** Seed predation *)

Lemma rat_density_effect_bounds (s : State) :
  0 <= rats s -> 0 <= rat_density_effect s < 1.
Proof.
  intros Hr. unfold rat_density_effect.
  assert (Hd : 0 < rats s + 3000) by lra.
  split.
  - apply Rmult_le_pos; [assumption|].
    left. apply Rinv_0_lt_compat. assumption.
  - apply Rmult_lt_reg_r with (rats s + 3000); [assumption|].
    unfold Rdiv. rewrite Rmult_assoc, Rinv_l by lra. lra.
Qed.

Lemma rat_density_effect_monotone (s s' : State) :
  0 <= rats s -> rats s <= rats s' ->
  rat_density_effect s <= rat_density_effect s'.
Proof.
  intros Hr Hle. unfold rat_density_effect.
  assert (Hd : 0 < rats s + 3000) by lra.
  assert (Hd' : 0 < rats s' + 3000) by lra.
  apply Rmult_le_reg_r with ((rats s + 3000) * (rats s' + 3000)).
  - apply Rmult_lt_0_compat; assumption.
  - replace (rats s / (rats s + 3000) * ((rats s + 3000) * (rats s' + 3000)))
      with (rats s * (rats s' + 3000)) by (field; lra).
    replace (rats s' / (rats s' + 3000) * ((rats s + 3000) * (rats s' + 3000)))
      with (rats s' * (rats s + 3000)) by (field; lra).
    lra.
Qed.

Lemma rat_density_effect_half (s : State) :
  rats s = 3000 -> rat_density_effect s = 1 / 2.
Proof.
  intros H. unfold rat_density_effect. rewrite H. lra.
Qed.

(** C7 (amended).  For a non-negative rat count, the predation pressure is
    [seed_predation_efficiency * rats / (rats + 3000)]: the density factor
    lies in [[0, 1)], does not decrease with the rats and is one half at 3000
    rats.  The accessible seeds bear the whole pressure; the refugia seeds
    bear 0.4 times the pressure (that is a 60% discount, not a 40% one). *)
Theorem seed_predation_and_refugia_discount
    (self : RapaNuiEcosystem) (state : State) :
  0 <= rats state ->
  predation_pressure self (clamp state) =
    seed_predation_efficiency self * (rats state / (rats state + 3000)) /\
  0 <= rat_density_effect (clamp state) < 1 /\
  (rats state = 3000 ->
   predation_pressure self (clamp state) = seed_predation_efficiency self / 2) /\
  accessible_survival self (clamp state) =
    accessible_reproduction self (clamp state) *
    (1 - predation_pressure self (clamp state)) /\
  refugia_survival self (clamp state) =
    refugia_reproduction self (clamp state) *
    (1 - 4 / 10 * predation_pressure self (clamp state)).
Proof.
  intros Hr.
  assert (Hc : rats (clamp state) = rats state)
    by (unfold clamp; simpl; apply Rmax_left; assumption).
  split; [| split; [| split; [| split]]].
  - unfold predation_pressure, rat_density_effect. rewrite Hc. reflexivity.
  - apply rat_density_effect_bounds. rewrite Hc. assumption.
  - intros H3000. unfold predation_pressure.
    rewrite (rat_density_effect_half (clamp state)) by (rewrite Hc; assumption).
    lra.
  - reflexivity.
  - unfold refugia_survival. ring.
Qed.

Lemma seed_predation_and_refugia_discount_witness :
  predation_pressure init (clamp (mkState 3000 9000000 6000000 150)) =
    seed_predation_efficiency init * (3000 / (3000 + 3000)) /\
  0 <= rat_density_effect (clamp (mkState 3000 9000000 6000000 150)) < 1 /\
  (3000 = 3000 ->
   predation_pressure init (clamp (mkState 3000 9000000 6000000 150)) =
     seed_predation_efficiency init / 2) /\
  accessible_survival init (clamp (mkState 3000 9000000 6000000 150)) =
    accessible_reproduction init (clamp (mkState 3000 9000000 6000000 150)) *
    (1 - predation_pressure init (clamp (mkState 3000 9000000 6000000 150))) /\
  refugia_survival init (clamp (mkState 3000 9000000 6000000 150)) =
    refugia_reproduction init (clamp (mkState 3000 9000000 6000000 150)) *
    (1 - 4 / 10 * predation_pressure init (clamp (mkState 3000 9000000 6000000 150))).
Proof.
  apply (seed_predation_and_refugia_discount init
           (mkState 3000 9000000 6000000 150)).
  simpl. lra.
Defined.

(** The claim as the specification words it fails: at 3000 rats and the
    initial forest, the refugia seeds that survive are not those left by 0.6
    times the nominal pressure (20.0475 against 17.69625 seedlings a
    year). *)
Lemma refugia_discount_is_not_forty_percent :
  refugia_survival init (clamp (mkState 3000 9000000 6000000 150)) <>
  refugia_reproduction init (clamp (mkState 3000 9000000 6000000 150)) *
  (1 - 6 / 10 * predation_pressure init (clamp (mkState 3000 9000000 6000000 150))).
Proof.
  unfold refugia_survival, predation_pressure, rat_density_effect,
    refugia_reproduction, refugia_palms, clamp.
  simpl.
  rewrite !Rmax_left by lra.
  lra.
Qed.

Example refugia_survival_at_3000_rats :
  refugia_survival init (clamp (mkState 3000 9000000 6000000 150)) =
  200475 / 10000.
Proof.
  unfold refugia_survival, predation_pressure, rat_density_effect,
    refugia_reproduction, refugia_palms, clamp.
  simpl.
  rewrite !Rmax_left by lra.
  lra.
Qed.

(** ** Configuration checks *)

Lemma init_is_valid : ~ invalid_configuration init.
Proof.
  unfold invalid_configuration; simpl.
  intros H.
  repeat (destruct H as [H | H]; [lra|]).
  lra.
Qed.

Lemma zero_maturation_time_is_invalid :
  invalid_configuration (set_palm_maturation_time 0 init).
Proof.
  unfold invalid_configuration; simpl.
  do 7 right. left. lra.
Qed.

(** C8 (amended).  The engine has no validation step.  The constructor takes
    no configuration and installs fixed values, none of which is invalid;
    [run_simulation] checks nothing and returns the trajectory the
    integrator hands back for every engine value, an invalid one included:
    it never raises. *)
Theorem no_validation_anywhere
    (odeint : (State -> R -> State) -> State -> list R -> list State)
    (self : RapaNuiEcosystem) (years : nat) :
  ~ invalid_configuration init /\
  exists trajectory,
    run_simulation odeint self years = Returned trajectory /\
    tr_t trajectory = linspace 0 (INR years) (years * 8) /\
    tr_total_palms trajectory =
      map total_palms
          (odeint (ecosystem_dynamics self) (initial_state self) (tr_t trajectory)).
Proof.
  split; [apply init_is_valid|].
  eexists. split; [reflexivity|].
  simpl. split; reflexivity.
Qed.

(** The claim as the specification words it fails: an engine whose
    maturation time was set to 0 is an invalid configuration, yet
    [run_simulation] raises nothing and integrates it. *)
Lemma invalid_configuration_is_integrated :
  invalid_configuration (set_palm_maturation_time 0 init) /\
  forall odeint years, exists trajectory,
    run_simulation odeint (set_palm_maturation_time 0 init) years =
    Returned trajectory.
Proof.
  split; [apply zero_maturation_time_is_invalid|].
  intros odeint years. eexists. reflexivity.
Qed.

(** ** The comparison layer and the disturbance flag *)

Lemma set_enable_human_clearing_twice (b b' : bool) (self : RapaNuiEcosystem) :
  set_enable_human_clearing b (set_enable_human_clearing b' self) =
  set_enable_human_clearing b self.
Proof. reflexivity. Qed.

Lemma set_enable_human_clearing_same (self : RapaNuiEcosystem) :
  set_enable_human_clearing (enable_human_clearing self) self = self.
Proof. destruct self; reflexivity. Qed.

(** C9 (amended).  The disturbance flag is a mutable attribute of the one
    engine instance, and [run_comparison_simulation] assigns it between its
    two runs: the first run is made with the flag cleared, the second with
    the flag set, and the engine is left with the flag set.  Every other
    attribute is left as it was (putting the old flag back gives the old
    engine). *)
Theorem comparison_flips_flag_on_shared_engine
    (odeint : (State -> R -> State) -> State -> list R -> list State)
    (self : RapaNuiEcosystem) (years : nat) :
  fst (run_comparison_simulation odeint self years) =
    set_enable_human_clearing true self /\
  enable_human_clearing (fst (run_comparison_simulation odeint self years)) = true /\
  set_enable_human_clearing (enable_human_clearing self)
    (fst (run_comparison_simulation odeint self years)) = self /\
  exists rats_only rats_humans,
    run_simulation odeint (set_enable_human_clearing false self) years =
      Returned rats_only /\
    run_simulation odeint (set_enable_human_clearing true self) years =
      Returned rats_humans /\
    snd (run_comparison_simulation odeint self years) =
      Returned (rats_only, rats_humans).
Proof.
  unfold run_comparison_simulation, run_simulation.
  rewrite set_enable_human_clearing_twice. simpl fst. simpl snd.
  split; [reflexivity|].
  split; [reflexivity|].
  split.
  - rewrite set_enable_human_clearing_twice.
    apply set_enable_human_clearing_same.
  - eexists. eexists.
    split; [reflexivity|].
    split; reflexivity.
Qed.

(** The claim as the specification words it fails: on an engine whose flag
    is cleared, the comparison leaves the flag set. *)
Lemma comparison_changes_cleared_flag :
  enable_human_clearing (set_enable_human_clearing false init) = false /\
  forall odeint years,
    enable_human_clearing
      (fst (run_comparison_simulation odeint
              (set_enable_human_clearing false init) years)) = true.
Proof. split; reflexivity. Qed.

(** ** Worked values *)

(** Settles the comparisons of a branch on concrete numbers. *)
Ltac decide_branches :=
  repeat match goal with
         | |- context [Rlt_dec ?a ?b] => destruct (Rlt_dec a b); try lra
         | |- context [Rgt_dec ?a ?b] => destruct (Rgt_dec a b); try lra
         end.

Ltac min_max_on_numbers :=
  repeat match goal with
         | |- context [Rmin ?a ?b] =>
             first [ rewrite (Rmin_left a b) by lra
                   | rewrite (Rmin_right a b) by lra ]
         | |- context [Rmax ?a ?b] =>
             first [ rewrite (Rmax_left a b) by lra
                   | rewrite (Rmax_right a b) by lra ]
         end.

(** A prime-age cohort dies at the base rate. *)
Example mature_mortality_at_150 : mature_mortality init 150 = 5 / 1000.
Proof.
  unfold mature_mortality, lifespan_mortality, senescent_mortality, lifespan_factor.
  simpl. decide_branches. min_max_on_numbers. lra.
Qed.

(** At 450 years both the senescence and the lifespan branch apply. *)
Example mature_mortality_at_450 : mature_mortality init 450 = 35 / 1000.
Proof.
  unfold mature_mortality, lifespan_mortality, senescent_mortality, lifespan_factor.
  simpl. decide_branches. min_max_on_numbers. lra.
Qed.

(** At 510 years the uncapped rate is 0.104 and the cap applies. *)
Example mature_mortality_at_510 : mature_mortality init 510 = 1 / 10.
Proof.
  unfold mature_mortality, lifespan_mortality, senescent_mortality, lifespan_factor.
  simpl. decide_branches. min_max_on_numbers. lra.
Qed.

(** With no mature palm left the carrying capacity is the floor, 50. *)
Example carrying_capacity_without_palms (t : R) :
  seasonal_rat_carrying_capacity init t 0 = 50.
Proof.
  unfold seasonal_rat_carrying_capacity. simpl.
  rewrite Rmult_0_l. apply Rmax_left. lra.
Qed.

(** The founding pair is not harvested at the start of the run. *)
Example rat_harvest_at_start : rat_harvest init (clamp (initial_state init)) 0 = 0.
Proof.
  unfold rat_harvest, rat_harvest_pressure, clamp. simpl.
  replace (0 / 150) with 0 by lra.
  min_max_on_numbers.
  rewrite Rmult_0_r.
  min_max_on_numbers. reflexivity.
Qed.

(** ** The two scenarios at one state *)

Lemma human_population_pos (self : RapaNuiEcosystem) (t : R) :
  0 < initial_humans self ->
  initial_humans self < human_carrying_capacity self ->
  0 < human_population self t.
Proof.
  intros HP0 HK.
  rewrite human_population_denominator.
  pose proof (logistic_denominator_gt_1 self HP0 HK t).
  apply Rdiv_lt_0_compat; lra.
Qed.


Section SameState.

Variable self : RapaNuiEcosystem.
Variable s : State.
Variable t : R.
Hypothesis HP0 : 0 < initial_humans self.
Hypothesis HK : initial_humans self < human_carrying_capacity self.
Hypothesis Hclear : 0 <= clearing_per_person_per_year self.
Hypothesis Hstock : 0 < initial_mature_palms self + initial_young_palms self.
Hypothesis Hrefugia : palm_refugia_effect self <= 1.
Hypothesis Hs : nonneg_state s.





End SameState.



(** * Further properties of the engine *)

(** ** The seasonal cycle of the carrying capacity *)

Lemma seasonal_factor_bounds (t : R) : 0 <= seasonal_factor t <= 1.
Proof.
  unfold seasonal_factor.
  pose proof (SIN_bound (2 * PI * t - PI / 2)) as [Hlo Hhi].
  split; lra.
Qed.

Lemma seasonal_factor_period (t : R) : seasonal_factor (t + 1) = seasonal_factor t.
Proof.
  unfold seasonal_factor.
  replace (2 * PI * (t + 1) - PI / 2) with ((2 * PI * t - PI / 2) + 2 * PI) by ring.
  rewrite sin_plus, sin_2PI, cos_2PI. ring.
Qed.

Lemma seasonal_factor_year_start : seasonal_factor 0 = 0.
Proof.
  unfold seasonal_factor.
  replace (2 * PI * 0 - PI / 2) with (- (PI / 2)) by ring.
  rewrite sin_neg, sin_PI2. ring.
Qed.

Lemma seasonal_factor_mid_year : seasonal_factor (1 / 2) = 1.
Proof.
  unfold seasonal_factor.
  replace (2 * PI * (1 / 2) - PI / 2) with (PI / 2) by field.
  rewrite sin_PI2. lra.
Qed.

(** The capacity per tree swings between the base and the peak value once a
    year: it is the base value at the start of a year, the peak value at
    mid-year, never outside the two, and the same one year later; the
    capacity of a stand of palms repeats with it. *)
Theorem carrying_capacity_seasonal_cycle
    (self : RapaNuiEcosystem) (t mature_palms : R) :
  rat_base_carrying_capacity_per_tree self <=
    rat_peak_carrying_capacity_per_tree self ->
  rat_base_carrying_capacity_per_tree self <= carrying_capacity_per_tree self t
    <= rat_peak_carrying_capacity_per_tree self /\
  carrying_capacity_per_tree self 0 = rat_base_carrying_capacity_per_tree self /\
  carrying_capacity_per_tree self (1 / 2) = rat_peak_carrying_capacity_per_tree self /\
  carrying_capacity_per_tree self (t + 1) = carrying_capacity_per_tree self t /\
  seasonal_rat_carrying_capacity self (t + 1) mature_palms =
    seasonal_rat_carrying_capacity self t mature_palms.
Proof.
  intros Hle.
  unfold seasonal_rat_carrying_capacity, carrying_capacity_per_tree.
  rewrite seasonal_factor_period, seasonal_factor_year_start, seasonal_factor_mid_year.
  pose proof (seasonal_factor_bounds t) as [Hlo Hhi].
  repeat split; try ring.
  - assert (0 <= seasonal_factor t *
                 (rat_peak_carrying_capacity_per_tree self -
                  rat_base_carrying_capacity_per_tree self))
      by (apply Rmult_le_pos; lra).
    lra.
  - assert (seasonal_factor t *
            (rat_peak_carrying_capacity_per_tree self -
             rat_base_carrying_capacity_per_tree self) <=
            1 * (rat_peak_carrying_capacity_per_tree self -
                 rat_base_carrying_capacity_per_tree self))
      by (apply Rmult_le_compat_r; lra).
    lra.
Qed.

Lemma carrying_capacity_seasonal_cycle_witness :
  rat_base_carrying_capacity_per_tree init <= carrying_capacity_per_tree init (1 / 4)
    <= rat_peak_carrying_capacity_per_tree init /\
  carrying_capacity_per_tree init 0 = rat_base_carrying_capacity_per_tree init /\
  carrying_capacity_per_tree init (1 / 2) = rat_peak_carrying_capacity_per_tree init /\
  carrying_capacity_per_tree init (1 / 4 + 1) = carrying_capacity_per_tree init (1 / 4) /\
  seasonal_rat_carrying_capacity init (1 / 4 + 1) 9000000 =
    seasonal_rat_carrying_capacity init (1 / 4) 9000000.
Proof.
  apply (carrying_capacity_seasonal_cycle init (1 / 4) 9000000).
  simpl. lra.
Defined.

(** The attribute [nut_season_duration] is set by the constructor and read
    nowhere: giving it another value changes neither the carrying capacity,
    nor the human population, nor any rate. *)
Theorem nut_season_duration_is_never_read
    (self : RapaNuiEcosystem) (v : R) (state : State) (t mature_palms : R) :
  seasonal_rat_carrying_capacity (set_nut_season_duration v self) t mature_palms =
    seasonal_rat_carrying_capacity self t mature_palms /\
  human_population (set_nut_season_duration v self) t = human_population self t /\
  ecosystem_dynamics (set_nut_season_duration v self) state t =
    ecosystem_dynamics self state t /\
  initial_state (set_nut_season_duration v self) = initial_state self.
Proof. repeat split. Qed.

(** ** Clearing *)

(** Whatever the flag, the palms cleared in a year, mature and young together,
    never exceed the clearing rate; the mature ones never exceed 18% of the
    accessible mature palms nor the young ones 12% of the accessible young
    palms, refugia left out; and mortality and clearing together never take
    more than 28% of the mature palms a year. *)
Theorem clearing_split_and_caps
    (self : RapaNuiEcosystem) (state : State) (t : R) :
  0 <= palm_refugia_effect self <= 1 ->
  mature_palm_clearing self (clamp state) t + young_palm_clearing self (clamp state) t
    <= clearing_rate self (clamp state) t /\
  mature_palm_clearing self (clamp state) t
    <= 18 / 100 * accessible_mature self (clamp state) /\
  accessible_mature self (clamp state) <= mature_palms (clamp state) /\
  young_palm_clearing self (clamp state) t
    <= 12 / 100 * accessible_young self (clamp state) /\
  accessible_young self (clamp state) <= young_palms (clamp state) /\
  mature_palm_loss self (clamp state) t <= 28 / 100 * mature_palms (clamp state).
Proof.
  intros [Hr0 Hr1].
  destruct (clamp_nonneg state) as (_ & Hm & Hy & _).
  set (s := clamp state) in *.
  assert (Ham : 0 <= accessible_mature self s <= mature_palms s).
  { unfold accessible_mature. split.
    - apply Rmult_le_pos; lra.
    - rewrite <- (Rmult_1_r (mature_palms s)) at 2.
      apply Rmult_le_compat_l; lra. }
  assert (Hay : 0 <= accessible_young self s <= young_palms s).
  { unfold accessible_young. split.
    - apply Rmult_le_pos; lra.
    - rewrite <- (Rmult_1_r (young_palms s)) at 2.
      apply Rmult_le_compat_l; lra. }
  assert (Hmc : mature_palm_clearing self s t <= 18 / 100 * accessible_mature self s).
  { unfold mature_palm_clearing.
    destruct (enable_human_clearing self); [| lra].
    eapply Rle_trans; [apply Rmin_r | lra]. }
  assert (Hyc : young_palm_clearing self s t <= 12 / 100 * accessible_young self s).
  { unfold young_palm_clearing.
    destruct (enable_human_clearing self); [| lra].
    eapply Rle_trans; [apply Rmin_r | lra]. }
  repeat split; try lra.
  - unfold mature_palm_clearing, young_palm_clearing, clearing_rate.
    destruct (enable_human_clearing self); [| lra].
    match goal with
    | |- Rmin ?a ?b + Rmin ?c ?d <= _ =>
        pose proof (Rmin_l a b); pose proof (Rmin_l c d)
    end.
    lra.
  - unfold mature_palm_loss.
    pose proof (mature_mortality_capped self (mature_avg_age s)) as Hcap.
    assert (mature_palms s * mature_mortality self (mature_avg_age s)
            <= mature_palms s * (1 / 10))
      by (apply Rmult_le_compat_l; lra).
    lra.
Qed.

Lemma clearing_split_and_caps_witness :
  mature_palm_clearing init (clamp (initial_state init)) 300 +
  young_palm_clearing init (clamp (initial_state init)) 300
    <= clearing_rate init (clamp (initial_state init)) 300 /\
  mature_palm_clearing init (clamp (initial_state init)) 300
    <= 18 / 100 * accessible_mature init (clamp (initial_state init)) /\
  accessible_mature init (clamp (initial_state init))
    <= mature_palms (clamp (initial_state init)) /\
  young_palm_clearing init (clamp (initial_state init)) 300
    <= 12 / 100 * accessible_young init (clamp (initial_state init)) /\
  accessible_young init (clamp (initial_state init))
    <= young_palms (clamp (initial_state init)) /\
  mature_palm_loss init (clamp (initial_state init)) 300
    <= 28 / 100 * mature_palms (clamp (initial_state init)).
Proof.
  apply (clearing_split_and_caps init (initial_state init) 300).
  simpl. lra.
Defined.

(** ** Mean age of the mature palms *)

(** The mean age stands still while there are at most 100 mature palms.
    Above that it grows by one year a year when no young palm matures;
    recruits, counted as 70 years old whatever [palm_maturation_time] is,
    slow the growth of a cohort older than 70 and speed up that of a cohort
    younger than 70. *)
Theorem avg_age_change_dilution
    (self : RapaNuiEcosystem) (state : State) :
  0 < palm_maturation_time self ->
  (mature_palms (clamp state) <= 100 -> avg_age_change self (clamp state) = 0) /\
  (100 < mature_palms (clamp state) ->
   (young_palms (clamp state) = 0 -> avg_age_change self (clamp state) = 1) /\
   (70 <= mature_avg_age (clamp state) -> avg_age_change self (clamp state) <= 1) /\
   (mature_avg_age (clamp state) <= 70 -> 1 <= avg_age_change self (clamp state))).
Proof.
  intros Hmt.
  destruct (clamp_nonneg state) as (_ & Hm & Hy & _).
  set (s := clamp state) in *.
  unfold avg_age_change, mature_palm_recruitment.
  split.
  - intros Hle. destruct (Rgt_dec (mature_palms s) 100); [lra | reflexivity].
  - intros Hgt. destruct (Rgt_dec (mature_palms s) 100) as [_ | Hn]; [| lra].
    assert (Hratio : 0 <= young_palms s / palm_maturation_time self / mature_palms s).
    { unfold Rdiv. apply Rmult_le_pos; [apply Rmult_le_pos; [assumption|] |];
        left; apply Rinv_0_lt_compat; lra. }
    repeat split.
    + intros Hy0. rewrite Hy0. unfold Rdiv. ring.
    + intros Hage.
      assert (young_palms s / palm_maturation_time self / mature_palms s *
              (70 - mature_avg_age s) <= 0).
      { rewrite <- (Rmult_0_r (young_palms s / palm_maturation_time self / mature_palms s)).
        apply Rmult_le_compat_l; lra. }
      lra.
    + intros Hage.
      assert (0 <= young_palms s / palm_maturation_time self / mature_palms s *
                   (70 - mature_avg_age s))
        by (apply Rmult_le_pos; lra).
      lra.
Qed.

Lemma avg_age_change_dilution_witness :
  (mature_palms (clamp (initial_state init)) <= 100 ->
   avg_age_change init (clamp (initial_state init)) = 0) /\
  (100 < mature_palms (clamp (initial_state init)) ->
   (young_palms (clamp (initial_state init)) = 0 ->
    avg_age_change init (clamp (initial_state init)) = 1) /\
   (70 <= mature_avg_age (clamp (initial_state init)) ->
    avg_age_change init (clamp (initial_state init)) <= 1) /\
   (mature_avg_age (clamp (initial_state init)) <= 70 ->
    1 <= avg_age_change init (clamp (initial_state init)))).
Proof.
  apply (avg_age_change_dilution init (initial_state init)).
  simpl. lra.
Defined.

(** ** Reproduction and seed predation *)

Lemma predation_pressure_bounds (self : RapaNuiEcosystem) (state : State) :
  0 <= seed_predation_efficiency self ->
  0 <= predation_pressure self (clamp state) <= seed_predation_efficiency self.
Proof.
  intros He.
  destruct (clamp_nonneg state) as (Hr & _).
  pose proof (rat_density_effect_bounds (clamp state) Hr) as [Hlo Hhi].
  unfold predation_pressure. split.
  - apply Rmult_le_pos; assumption.
  - rewrite <- (Rmult_1_r (seed_predation_efficiency self)) at 2.
    apply Rmult_le_compat_l; lra.
Qed.

(** The seedlings that survive the rats are never more than the potential
    reproduction and never fewer than the share [1 - seed_predation_efficiency]
    of it; with no rats they are the whole of it. *)
Theorem actual_reproduction_bounds
    (self : RapaNuiEcosystem) (state : State) :
  0 <= seed_predation_efficiency self <= 1 ->
  0 <= palm_refugia_effect self <= 1 ->
  0 <= palm_max_reproduction self ->
  (1 - seed_predation_efficiency self) * potential_reproduction self (clamp state)
    <= actual_reproduction self (clamp state)
    <= potential_reproduction self (clamp state) /\
  (rats state <= 0 ->
   predation_pressure self (clamp state) = 0 /\
   actual_reproduction self (clamp state) = potential_reproduction self (clamp state)).
Proof.
  intros [He0 He1] [Hr0 Hr1] Hrep.
  pose proof (predation_pressure_bounds self state He0) as [Hp0 Hp1].
  destruct (clamp_nonneg state) as (_ & Hm & _).
  assert (Hrr : 0 <= refugia_reproduction self (clamp state)).
  { unfold refugia_reproduction, refugia_palms.
    repeat apply Rmult_le_pos; lra. }
  assert (Har : 0 <= accessible_reproduction self (clamp state)).
  { unfold accessible_reproduction, accessible_palms.
    repeat apply Rmult_le_pos; lra. }
  unfold actual_reproduction, potential_reproduction,
    refugia_survival, accessible_survival.
  set (p := predation_pressure self (clamp state)) in *.
  set (rr := refugia_reproduction self (clamp state)) in *.
  set (ar := accessible_reproduction self (clamp state)) in *.
  split; [split |].
  - assert (rr * (1 - seed_predation_efficiency self) <= rr * (1 - p * (4 / 10)))
      by (apply Rmult_le_compat_l; lra).
    assert (ar * (1 - seed_predation_efficiency self) <= ar * (1 - p))
      by (apply Rmult_le_compat_l; lra).
    lra.
  - assert (rr * (1 - p * (4 / 10)) <= rr * 1)
      by (apply Rmult_le_compat_l; lra).
    assert (ar * (1 - p) <= ar * 1)
      by (apply Rmult_le_compat_l; lra).
    lra.
  - intros Hnorats.
    assert (Hp : p = 0).
    { unfold p, predation_pressure, rat_density_effect, clamp. simpl.
      rewrite Rmax_right by assumption.
      unfold Rdiv. ring. }
    split; [exact Hp|]. rewrite Hp. ring.
Qed.

Lemma actual_reproduction_bounds_witness :
  (1 - seed_predation_efficiency init) *
    potential_reproduction init (clamp (initial_state init))
    <= actual_reproduction init (clamp (initial_state init))
    <= potential_reproduction init (clamp (initial_state init)) /\
  (rats (initial_state init) <= 0 ->
   predation_pressure init (clamp (initial_state init)) = 0 /\
   actual_reproduction init (clamp (initial_state init)) =
     potential_reproduction init (clamp (initial_state init))).
Proof.
  apply (actual_reproduction_bounds init (initial_state init)); simpl; lra.
Defined.

(** ** Rats *)

Lemma rat_harvest_pressure_nonneg (self : RapaNuiEcosystem) (t : R) :
  0 < initial_humans self ->
  initial_humans self < human_carrying_capacity self ->
  0 <= rat_harvest_rate self ->
  0 <= t ->
  0 <= rat_harvest_pressure self t.
Proof.
  intros HP0 HK Hrate Ht.
  unfold rat_harvest_pressure, humans.
  pose proof (human_population_pos self t HP0 HK).
  apply Rmult_le_pos; [apply Rmult_le_pos; lra |].
  apply Rmin_glb; lra.
Qed.

Lemma rat_harvest_nonneg (self : RapaNuiEcosystem) (state : State) (t : R) :
  0 < initial_humans self ->
  initial_humans self < human_carrying_capacity self ->
  0 <= rat_harvest_rate self ->
  0 <= t ->
  0 <= rat_harvest self (clamp state) t.
Proof.
  intros HP0 HK Hrate Ht.
  unfold rat_harvest.
  destruct (enable_human_clearing self); [| lra].
  destruct (clamp_nonneg state) as (Hr & _).
  apply Rmin_glb; [apply rat_harvest_pressure_nonneg; assumption | lra].
Qed.

Lemma rat_harvest_applied_nonneg (self : RapaNuiEcosystem) (state : State) (t : R) :
  0 < initial_humans self ->
  initial_humans self < human_carrying_capacity self ->
  0 <= rat_harvest_rate self ->
  0 <= t ->
  0 <= rat_harvest_applied self (clamp state) t.
Proof.
  intros HP0 HK Hrate Ht.
  pose proof (rat_harvest_nonneg self state t HP0 HK Hrate Ht) as Hh.
  unfold rat_harvest_applied.
  destruct (Rgt_dec _ _); [assumption|].
  destruct (enable_human_clearing self); lra.
Qed.

(** A rat population at or above the seasonal carrying capacity does not
    grow: the logistic term is not positive there, and natural mortality and
    harvest only take away. *)
Theorem rats_above_capacity_decline
    (self : RapaNuiEcosystem) (state : State) (t : R) :
  0 < initial_humans self ->
  initial_humans self < human_carrying_capacity self ->
  0 <= rat_harvest_rate self ->
  0 <= rat_intrinsic_growth self ->
  0 <= rat_natural_mortality self ->
  0 < rat_minimum_viable_population self ->
  0 <= t ->
  rat_carrying_capacity self (clamp state) t <= rats (clamp state) ->
  rats (ecosystem_dynamics self state t) <= 0.
Proof.
  intros HP0 HK Hrate Hgrow Hmort Hmvp Ht Hover.
  destruct (ecosystem_dynamics_rates self state t) as (-> & _).
  rewrite rat_growth_harvest.
  pose proof (rat_harvest_applied_nonneg self state t HP0 HK Hrate Ht) as Hh.
  destruct (carrying_capacity_floor self t 0 state) as (_ & Hfloor).
  set (s := clamp state) in *.
  set (K := rat_carrying_capacity self s t) in *.
  assert (HK0 : 0 < K) by lra.
  assert (Hratio : 1 <= rats s / K).
  { apply Rmult_le_reg_r with K; [assumption|].
    unfold Rdiv. rewrite Rmult_assoc, Rinv_l by lra. lra. }
  assert (Hfac : 0 <= (if Rgt_dec (rats s) (rat_minimum_viable_population self)
                       then 1 else 5 / 10))
    by (destruct (Rgt_dec _ _); lra).
  assert (Hpos : 0 <= rats s * rat_intrinsic_growth self *
                      (if Rgt_dec (rats s) (rat_minimum_viable_population self)
                       then 1 else 5 / 10))
    by (repeat apply Rmult_le_pos; lra).
  assert (Hlog : rats s * rat_intrinsic_growth self *
                 (if Rgt_dec (rats s) (rat_minimum_viable_population self)
                  then 1 else 5 / 10) * (1 - rats s / K) <= 0).
  { rewrite <- (Rmult_0_r (rats s * rat_intrinsic_growth self *
                 (if Rgt_dec (rats s) (rat_minimum_viable_population self)
                  then 1 else 5 / 10))).
    apply Rmult_le_compat_l; lra. }
  assert (0 <= rats s * rat_natural_mortality self)
    by (apply Rmult_le_pos; lra).
  lra.
Qed.

Lemma rats_above_capacity_decline_witness :
  rats (ecosystem_dynamics init (mkState 100 0 0 150) 0) <= 0.
Proof.
  apply (rats_above_capacity_decline init (mkState 100 0 0 150) 0);
    simpl; try lra.
  unfold rat_carrying_capacity, seasonal_rat_carrying_capacity. simpl.
  rewrite (Rmax_left 0 0) by lra.
  rewrite Rmult_0_l.
  rewrite (Rmax_left 50 0) by lra.
  rewrite (Rmax_left 100 0) by lra.
  lra.
Defined.

(** ** Extinction is absorbing *)

(** With no rats the rat population has rate 0, whatever the palms and the
    humans do: rats never arise from none. *)
Theorem no_rats_no_rat_growth
    (self : RapaNuiEcosystem) (state : State) (t : R) :
  0 < initial_humans self ->
  initial_humans self < human_carrying_capacity self ->
  0 <= rat_harvest_rate self ->
  0 < rat_minimum_viable_population self ->
  0 <= t ->
  rats state <= 0 ->
  rats (ecosystem_dynamics self state t) = 0.
Proof.
  intros HP0 HK Hrate Hmvp Ht Hnorats.
  destruct (ecosystem_dynamics_rates self state t) as (-> & _).
  rewrite rat_growth_harvest.
  assert (Hr : rats (clamp state) = 0)
    by (unfold clamp; simpl; apply Rmax_right; assumption).
  assert (Hh : rat_harvest self (clamp state) t = 0).
  { unfold rat_harvest. destruct (enable_human_clearing self); [| reflexivity].
    rewrite Hr, Rmult_0_l.
    apply Rmin_right, rat_harvest_pressure_nonneg; assumption. }
  unfold rat_harvest_applied. rewrite Hh, Hr.
  destruct (Rgt_dec _ _); ring.
Qed.

Lemma no_rats_no_rat_growth_witness :
  rats (ecosystem_dynamics init (mkState 0 9000000 6000000 150) 100) = 0.
Proof.
  apply (no_rats_no_rat_growth init (mkState 0 9000000 6000000 150) 100);
    simpl; lra.
Defined.

(** With no palm left, mature or young, both palm populations and the mean
    age have rate 0, with or without human clearing: the forest does not
    come back from nothing. *)
Theorem no_palms_no_palm_growth
    (self : RapaNuiEcosystem) (state : State) (t : R) :
  palm_maturation_time self <> 0 ->
  initial_mature_palms self + initial_young_palms self <> 0 ->
  mature_palms state <= 0 ->
  young_palms state <= 0 ->
  mature_palms (ecosystem_dynamics self state t) = 0 /\
  young_palms (ecosystem_dynamics self state t) = 0 /\
  mature_avg_age (ecosystem_dynamics self state t) = 0.
Proof.
  intros _ _ Hm Hy.
  destruct (ecosystem_dynamics_rates self state t) as (_ & -> & -> & ->).
  assert (Hm0 : mature_palms (clamp state) = 0)
    by (unfold clamp; simpl; apply Rmax_right; assumption).
  assert (Hy0 : young_palms (clamp state) = 0)
    by (unfold clamp; simpl; apply Rmax_right; assumption).
  assert (Hrate : clearing_rate self (clamp state) t = 0).
  { unfold clearing_rate, clearing_efficiency, total_palms.
    rewrite Hm0, Hy0.
    destruct (enable_human_clearing self); [| reflexivity].
    unfold Rdiv. ring. }
  assert (Hmc : mature_palm_clearing self (clamp state) t = 0).
  { unfold mature_palm_clearing, accessible_mature. rewrite Hrate, Hm0.
    destruct (enable_human_clearing self); [| reflexivity].
    rewrite !Rmult_0_l. apply Rmin_left, Rle_refl. }
  assert (Hyc : young_palm_clearing self (clamp state) t = 0).
  { unfold young_palm_clearing, accessible_young. rewrite Hrate, Hy0.
    destruct (enable_human_clearing self); [| reflexivity].
    rewrite !Rmult_0_l. apply Rmin_left, Rle_refl. }
  repeat split.
  - unfold mature_palm_change, mature_palm_loss, mature_palm_recruitment.
    rewrite Hmc, Hm0, Hy0. unfold Rdiv. ring.
  - unfold young_palm_change, young_palm_loss, actual_reproduction,
      refugia_survival, accessible_survival, refugia_reproduction,
      accessible_reproduction, refugia_palms, accessible_palms.
    rewrite Hyc, Hm0, Hy0. unfold Rdiv. ring.
  - unfold avg_age_change. rewrite Hm0.
    destruct (Rgt_dec 0 100); [lra | reflexivity].
Qed.

Lemma no_palms_no_palm_growth_witness :
  mature_palms (ecosystem_dynamics init (mkState 1000 0 0 150) 100) = 0 /\
  young_palms (ecosystem_dynamics init (mkState 1000 0 0 150) 100) = 0 /\
  mature_avg_age (ecosystem_dynamics init (mkState 1000 0 0 150) 100) = 0.
Proof.
  apply (no_palms_no_palm_growth init (mkState 1000 0 0 150) 100);
    simpl; lra.
Defined.

(** * The time grid and the driver *)

Lemma linspace_length (start stop : R) (num : nat) :
  List.length (linspace start stop num) = num.
Proof. unfold linspace. rewrite length_map, length_seq. reflexivity. Qed.

Lemma linspace_nth (start stop : R) (num i : nat) :
  (i < num)%nat ->
  nth_error (linspace start stop num) i =
  Some (start + INR i * ((stop - start) / INR (num - 1))).
Proof.
  intros Hi. unfold linspace.
  rewrite nth_error_map, nth_error_seq.
  destruct (Nat.ltb_spec i num) as [_ | Hge]; [reflexivity|].
  exfalso. apply (Nat.lt_irrefl i). eapply Nat.lt_le_trans; eassumption.
Qed.

Lemma linspace_first (start stop : R) (num : nat) :
  (1 <= num)%nat -> hd_error (linspace start stop num) = Some start.
Proof.
  intros Hnum.
  pose proof (linspace_nth start stop num 0 Hnum) as H0.
  destruct (linspace start stop num) as [| x xs]; [discriminate|].
  simpl in *. injection H0 as ->. f_equal. ring.
Qed.

Lemma linspace_last (start stop : R) (num : nat) :
  (2 <= num)%nat ->
  nth_error (linspace start stop num) (num - 1) = Some stop.
Proof.
  intros Hnum.
  rewrite linspace_nth by lia.
  f_equal.
  assert (Hpos : 0 < INR (num - 1)) by (apply lt_0_INR; lia).
  field. lra.
Qed.

Lemma linspace_nondecreasing (start stop : R) (num : nat) :
  start <= stop -> nondecreasing (linspace start stop num).
Proof.
  intros Hle i j a b Hij Ha Hb.
  assert (Hj : (j < num)%nat).
  { rewrite <- (linspace_length start stop num).
    apply nth_error_Some. congruence. }
  rewrite linspace_nth in Ha, Hb by lia.
  injection Ha as <-. injection Hb as <-.
  apply Rplus_le_compat_l, Rmult_le_compat_r.
  - unfold Rdiv. apply Rmult_le_pos; [lra|].
    destruct (num - 1)%nat as [| k] eqn:Hk.
    + simpl. rewrite Rinv_0. lra.
    + left. apply Rinv_0_lt_compat, lt_0_INR. lia.
  - apply le_INR. assumption.
Qed.

Lemma last_cons (y z : R) (zs : list R) : last (z :: zs) y = last zs z.
Proof.
  revert y z. induction zs as [| w ws IH]; intros y z; [reflexivity|].
  change (last (z :: w :: ws) y) with (last (w :: ws) y).
  rewrite (IH y w), (IH z w). reflexivity.
Qed.

Lemma nth_error_last (ys : list R) (y : R) :
  nth_error (y :: ys) (List.length ys) = Some (last ys y).
Proof.
  revert y. induction ys as [| z zs IH]; intros y; [reflexivity|].
  simpl List.length. change (nth_error (y :: z :: zs) (S (List.length zs)))
    with (nth_error (z :: zs) (List.length zs)).
  rewrite IH, last_cons. reflexivity.
Qed.

Lemma last_item_nth (xs : list R) (x : R) :
  nth_error xs (List.length xs - 1) = Some x -> last_item xs = Returned x.
Proof.
  destruct xs as [| y ys]; [discriminate|].
  simpl List.length.
  replace (S (List.length ys) - 1)%nat with (List.length ys) by lia.
  rewrite nth_error_last.
  intros H. injection H as <-. reflexivity.
Qed.

(** [run_simulation(years)] for a horizon of at least one year works on a
    grid of [8 * years] samples that starts at 0, ends at [years] and never
    decreases; the samples are [years / (8 * years - 1)] apart, both ends
    being on the grid, and there is one human-population value per sample. *)
Theorem run_simulation_time_grid
    (odeint : (State -> R -> State) -> State -> list R -> list State)
    (self : RapaNuiEcosystem) (years : nat) :
  (1 <= years)%nat ->
  exists trajectory,
    run_simulation odeint self years = Returned trajectory /\
    List.length (tr_t trajectory) = (years * 8)%nat /\
    List.length (tr_humans trajectory) = (years * 8)%nat /\
    hd_error (tr_t trajectory) = Some 0 /\
    last_item (tr_t trajectory) = Returned (INR years) /\
    nondecreasing (tr_t trajectory) /\
    forall i, (i < years * 8)%nat ->
      nth_error (tr_t trajectory) i =
      Some (INR i * (INR years / INR (years * 8 - 1))).
Proof.
  intros Hyears.
  eexists. split; [reflexivity|]. simpl.
  rewrite length_map, linspace_length.
  split; [reflexivity|]. split; [reflexivity|].
  split; [apply linspace_first; lia|].
  split.
  - apply last_item_nth. rewrite linspace_length.
    apply linspace_last. lia.
  - split.
    + apply linspace_nondecreasing, pos_INR.
    + intros i Hi. rewrite linspace_nth by assumption.
      f_equal. unfold Rdiv. ring.
Qed.

Lemma run_simulation_time_grid_witness :
  exists trajectory,
    run_simulation (fun _ y0 t => map (fun _ => y0) t) init 522 =
      Returned trajectory /\
    List.length (tr_t trajectory) = (522 * 8)%nat /\
    List.length (tr_humans trajectory) = (522 * 8)%nat /\
    hd_error (tr_t trajectory) = Some 0 /\
    last_item (tr_t trajectory) = Returned (INR 522) /\
    nondecreasing (tr_t trajectory) /\
    forall i, (i < 522 * 8)%nat ->
      nth_error (tr_t trajectory) i =
      Some (INR i * (INR 522 / INR (522 * 8 - 1))).
Proof.
  apply (run_simulation_time_grid (fun _ y0 t => map (fun _ => y0) t) init 522).
  lia.
Defined.

(** The two runs of [run_comparison_simulation] share their time grid and
    their human-population series, which does not depend on the disturbance
    flag: the rats-only run still reports the growing human population. *)
Theorem comparison_runs_share_grid_and_humans
    (odeint : (State -> R -> State) -> State -> list R -> list State)
    (self : RapaNuiEcosystem) (years : nat) :
  exists rats_only rats_humans,
    snd (run_comparison_simulation odeint self years) =
      Returned (rats_only, rats_humans) /\
    tr_t rats_only = tr_t rats_humans /\
    tr_humans rats_only = tr_humans rats_humans /\
    tr_humans rats_only = map (human_population self) (tr_t rats_only).
Proof.
  unfold run_comparison_simulation, run_simulation.
  eexists. eexists. simpl snd.
  split; [reflexivity|]. simpl.
  repeat split.
Qed.

(** * The comparison statistics *)

Lemma Int_part_monotone (x y : R) : x <= y -> (Int_part x <= Int_part y)%Z.
Proof.
  intros Hxy.
  destruct (base_Int_part x) as [Hx _].
  destruct (base_Int_part y) as [_ Hy].
  assert (H : IZR (Int_part x) < IZR (Int_part y + 1)) by (rewrite plus_IZR; lra).
  apply lt_IZR in H. lia.
Qed.

Lemma Int_part_nonneg (x : R) : 0 <= x -> (0 <= Int_part x)%Z.
Proof.
  intros Hx.
  destruct (base_Int_part x) as [_ Hlo].
  assert (H : IZR (-1) < IZR (Int_part x)) by lra.
  apply lt_IZR in H. lia.
Qed.

Lemma py_int_monotone (x y : R) : x <= y -> (py_int x <= py_int y)%Z.
Proof.
  intros Hxy. unfold py_int.
  destruct (Rle_dec 0 x) as [Hx | Hx]; destruct (Rle_dec 0 y) as [Hy | Hy].
  - apply Int_part_monotone; assumption.
  - lra.
  - pose proof (Int_part_nonneg (- x) ltac:(lra)).
    pose proof (Int_part_nonneg y Hy). lia.
  - pose proof (Int_part_monotone (- y) (- x) ltac:(lra)). lia.
Qed.

Lemma py_int_IZR (z : Z) : py_int (IZR z) = z.
Proof.
  unfold py_int.
  destruct (Rle_dec 0 (IZR z)) as [Hz | Hz].
  - symmetry. apply Int_part_spec. lra.
  - rewrite <- opp_IZR.
    rewrite <- (Int_part_spec (IZR (- z)) (- z)) by lra. lia.
Qed.

Lemma where_from_head (i : nat) (cond : R -> bool) (xs : list R) (j : nat)
    (rest : list nat) :
  where_from i cond xs = j :: rest ->
  exists k x,
    j = (i + k)%nat /\ nth_error xs k = Some x /\ cond x = true /\
    forall k' y, (k' < k)%nat -> nth_error xs k' = Some y -> cond y = false.
Proof.
  revert i. induction xs as [| x xs IH]; intros i H; [discriminate|].
  simpl in H. destruct (cond x) eqn:Hc.
  - injection H as <- _. exists 0%nat, x.
    repeat split; [lia | assumption | intros k' y Hk; lia].
  - destruct (IH _ H) as (k & x' & -> & Hnth & Hcx & Hbefore).
    exists (S k), x'. repeat split; [lia | assumption | assumption |].
    intros [| k'] y Hk Hy.
    + simpl in Hy. congruence.
    + simpl in Hy. apply (Hbefore k' y); [lia | assumption].
Qed.

Lemma where_from_nil (i : nat) (cond : R -> bool) (xs : list R) :
  where_from i cond xs = [] ->
  forall k y, nth_error xs k = Some y -> cond y = false.
Proof.
  revert i. induction xs as [| x xs IH]; intros i H k y Hy.
  - destruct k; discriminate.
  - simpl in H. destruct (cond x) eqn:Hc; [discriminate|].
    destruct k as [| k]; simpl in Hy.
    + congruence.
    + apply (IH _ H k y Hy).
Qed.

Lemma where_from_reached (i : nat) (cond : R -> bool) (xs : list R) (k : nat) (x : R) :
  nth_error xs k = Some x -> cond x = true ->
  exists j rest, where_from i cond xs = j :: rest /\ (i <= j <= i + k)%nat.
Proof.
  revert i k. induction xs as [| y ys IH]; intros i k Hnth Hc.
  - destruct k; discriminate.
  - simpl. destruct (cond y) eqn:Hy.
    + exists i, (where_from (S i) cond ys). split; [reflexivity | lia].
    + destruct k as [| k]; simpl in Hnth; [congruence|].
      destruct (IH (S i) k Hnth Hc) as (j & rest & Heq & Hj).
      exists j, rest. split; [assumption | lia].
Qed.

Lemma below_true (threshold x : R) : below threshold x = true <-> x < threshold.
Proof.
  unfold below. destruct (Rlt_dec x threshold); split; intros; try assumption;
    try reflexivity; try discriminate; contradiction.
Qed.

Lemma below_false (threshold x : R) : below threshold x = false <-> threshold <= x.
Proof.
  unfold below. destruct (Rlt_dec x threshold); split; intros;
    try reflexivity; try discriminate; lra.
Qed.

(** [np.where(total_palms < threshold)[0]] lists first the first sample under
    the threshold: that sample is under it and every earlier one is not; the
    list is empty exactly when no sample is under the threshold. *)
Theorem first_index_below_threshold (xs : list R) (threshold : R) :
  match np_where (below threshold) xs with
  | [] => forall k y, nth_error xs k = Some y -> threshold <= y
  | i :: _ =>
      (exists x, nth_error xs i = Some x /\ x < threshold) /\
      forall k y, (k < i)%nat -> nth_error xs k = Some y -> threshold <= y
  end.
Proof.
  unfold np_where.
  destruct (where_from 0 (below threshold) xs) as [| i rest] eqn:Hw.
  - intros k y Hy. apply below_false.
    apply (where_from_nil _ _ _ Hw k y Hy).
  - destruct (where_from_head _ _ _ _ _ Hw) as (k & x & -> & Hnth & Hc & Hbefore).
    simpl. split.
    + exists x. split; [assumption | apply below_true; assumption].
    + intros k' y Hk Hy. apply below_false. apply (Hbefore k' y Hk Hy).
Qed.

Lemma nondecreasing_map_plus (c : R) (xs : list R) :
  nondecreasing xs -> nondecreasing (map (fun x => c + x) xs).
Proof.
  intros Hxs i j a b Hij Ha Hb.
  rewrite nth_error_map in Ha, Hb.
  destruct (nth_error xs i) as [a' |] eqn:Hai; [| discriminate].
  destruct (nth_error xs j) as [b' |] eqn:Hbj; [| discriminate].
  simpl in Ha, Hb. injection Ha as <-. injection Hb as <-.
  pose proof (Hxs i j a' b' Hij Hai Hbj). lra.
Qed.

Lemma nth_error_earlier (xs : list R) (i j : nat) (b : R) :
  (i <= j)%nat -> nth_error xs j = Some b -> exists a, nth_error xs i = Some a.
Proof.
  intros Hij Hb.
  assert (Hj : (j < List.length xs)%nat) by (apply nth_error_Some; congruence).
  destruct (nth_error xs i) as [a |] eqn:Ha; [exists a; reflexivity|].
  apply nth_error_None in Ha. lia.
Qed.

(** What [milestone_year] returns, read back as an index. *)
Lemma milestone_year_reached (dates xs : list R) (threshold : R) (year : Z) :
  milestone_year dates xs threshold = Returned (Some year) ->
  exists i d x,
    nth_error dates i = Some d /\ year = py_int d /\
    nth_error xs i = Some x /\ x < threshold.
Proof.
  unfold milestone_year, np_where, item.
  destruct (where_from 0 (below threshold) xs) as [| i rest] eqn:Hw; [discriminate|].
  destruct (where_from_head _ _ _ _ _ Hw) as (k & x & -> & Hnth & Hc & _).
  simpl. destruct (nth_error dates k) as [d |] eqn:Hd; simpl; [| discriminate].
  intros H. injection H as <-.
  exists k, d, x. repeat split; try assumption.
  apply below_true. assumption.
Qed.

(** A sample under the threshold at index [k], with a date for it, makes
    [milestone_year] return a year no later than that date's. *)
Lemma milestone_year_no_later (dates xs : list R) (threshold : R) (k : nat) (d x : R) :
  nondecreasing dates ->
  nth_error dates k = Some d ->
  nth_error xs k = Some x ->
  x < threshold ->
  exists year,
    milestone_year dates xs threshold = Returned (Some year) /\
    (year <= py_int d)%Z.
Proof.
  intros Hsorted Hd Hx Hlt.
  destruct (where_from_reached 0 (below threshold) xs k x Hx
              (proj2 (below_true threshold x) Hlt)) as (j & rest & Hw & Hj).
  unfold milestone_year, np_where, item. rewrite Hw.
  destruct (nth_error_earlier dates j k d ltac:(lia) Hd) as (d' & Hd').
  rewrite Hd'. simpl.
  exists (py_int d'). split; [reflexivity|].
  apply py_int_monotone. apply (Hsorted j k d' d); [lia | assumption | assumption].
Qed.

(** Within one scenario the milestones come in order: when the trajectory
    falls below a threshold, it has fallen below every higher threshold in
    the same year or an earlier one (dates that never decrease). *)
Theorem milestones_are_ordered
    (dates total_palms : list R) (low high : R) (year_low : Z) :
  nondecreasing dates ->
  low <= high ->
  milestone_year dates total_palms low = Returned (Some year_low) ->
  exists year_high,
    milestone_year dates total_palms high = Returned (Some year_high) /\
    (year_high <= year_low)%Z.
Proof.
  intros Hsorted Hle Hlow.
  destruct (milestone_year_reached _ _ _ _ Hlow) as (i & d & x & Hd & -> & Hx & Hlt).
  apply (milestone_year_no_later dates total_palms high i d x); try assumption.
  lra.
Qed.

(** When the rats-and-humans trajectory is nowhere above the rats-only one,
    on a common grid of dates, every milestone the rats-only run reaches is
    reached by the rats-and-humans run too, and the difference printed in the
    last column is never positive. *)
Theorem dominated_scenario_is_never_later
    (dates total_palms_rats total_palms_humans : list R) (threshold : R)
    (rats_year : Z) :
  nondecreasing dates ->
  Forall2 Rle total_palms_humans total_palms_rats ->
  milestone_year dates total_palms_rats threshold = Returned (Some rats_year) ->
  exists humans_year,
    milestone_year dates total_palms_humans threshold = Returned (Some humans_year) /\
    (humans_year <= rats_year)%Z /\
    milestone_row dates total_palms_rats dates total_palms_humans threshold =
      Returned {| row_threshold := threshold;
                  row_rats_year := Some rats_year;
                  row_humans_year := Some humans_year;
                  row_difference := Some (humans_year - rats_year)%Z |} /\
    (humans_year - rats_year <= 0)%Z.
Proof.
  intros Hsorted Hdom Hrats.
  destruct (milestone_year_reached _ _ _ _ Hrats) as (i & d & x & Hd & -> & Hx & Hlt).
  assert (Hh : exists h, nth_error total_palms_humans i = Some h /\ h <= x).
  { clear - Hdom Hx. revert i Hx.
    induction Hdom as [| h r hs rs Hhr _ IH]; intros i Hx.
    - destruct i; discriminate.
    - destruct i as [| i]; simpl in *.
      + injection Hx as <-. exists h. split; [reflexivity | assumption].
      + apply IH. assumption. }
  destruct Hh as (h & Hh & Hhx).
  destruct (milestone_year_no_later dates total_palms_humans threshold i d h
              Hsorted Hd Hh ltac:(lra)) as (year & Hyear & Hle).
  exists year. split; [assumption|]. split; [assumption|].
  split; [| lia].
  unfold milestone_row. rewrite Hrats, Hyear. reflexivity.
Qed.

Lemma three_dates_nondecreasing : nondecreasing [1200; 1201; 1202].
Proof.
  intros i j a b Hij Ha Hb.
  destruct i as [| [| [| i]]]; destruct j as [| [| [| j]]]; simpl in Ha, Hb;
    try (destruct i; discriminate); try (destruct j; discriminate); try lia;
    injection Ha as <-; injection Hb as <-; lra.
Qed.

Ltac decide_below :=
  unfold below;
  repeat match goal with
         | |- context [Rlt_dec ?a ?b] => destruct (Rlt_dec a b); try lra
         end.

Example milestone_year_sample :
  milestone_year [1200; 1201; 1202] [12000000; 9000000; 4000000] 5000000 =
  Returned (Some 1202%Z).
Proof.
  unfold milestone_year, np_where, where_from, item. decide_below.
  simpl. rewrite (py_int_IZR 1202). reflexivity.
Qed.

Lemma milestones_are_ordered_witness :
  exists year_high,
    milestone_year [1200; 1201; 1202] [12000000; 9000000; 4000000] 10000000 =
      Returned (Some year_high) /\
    (year_high <= 1202)%Z.
Proof.
  apply (milestones_are_ordered [1200; 1201; 1202]
           [12000000; 9000000; 4000000] 5000000 10000000 1202%Z).
  - apply three_dates_nondecreasing.
  - lra.
  - apply milestone_year_sample.
Defined.

Lemma dominated_scenario_is_never_later_witness :
  exists humans_year,
    milestone_year [1200; 1201; 1202] [12000000; 4000000; 1000000] 5000000 =
      Returned (Some humans_year) /\
    (humans_year <= 1202)%Z /\
    milestone_row [1200; 1201; 1202] [12000000; 9000000; 4000000]
                  [1200; 1201; 1202] [12000000; 4000000; 1000000] 5000000 =
      Returned {| row_threshold := 5000000;
                  row_rats_year := Some 1202%Z;
                  row_humans_year := Some humans_year;
                  row_difference := Some (humans_year - 1202)%Z |} /\
    (humans_year - 1202 <= 0)%Z.
Proof.
  apply (dominated_scenario_is_never_later [1200; 1201; 1202]
           [12000000; 9000000; 4000000] [12000000; 4000000; 1000000]
           5000000 1202%Z).
  - apply three_dates_nondecreasing.
  - repeat constructor; lra.
  - apply milestone_year_sample.
Defined.

(** ** Decline rates *)

(** The acceleration factor is printed exactly when the rats-only run ends
    with fewer than 15,000,000 palms; it is then the ratio of the two
    losses, in which the horizon 522 cancels, and it is at least 1 exactly
    when the rats-and-humans run ends with no more palms than the rats-only
    run. *)
Theorem acceleration_factor_meaning (final_palms_rats final_palms_humans : R) :
  (final_palms_rats < 15000000 ->
   acceleration_factor final_palms_rats final_palms_humans =
     Some ((15000000 - final_palms_humans) / (15000000 - final_palms_rats)) /\
   (1 <= (15000000 - final_palms_humans) / (15000000 - final_palms_rats) <->
    final_palms_humans <= final_palms_rats)) /\
  (15000000 <= final_palms_rats ->
   acceleration_factor final_palms_rats final_palms_humans = None).
Proof.
  unfold acceleration_factor, decline_rate.
  split.
  - intros Hlt.
    destruct (Rgt_dec ((15000000 - final_palms_rats) / 522) 0) as [_ | Hn]; [| lra].
    split.
    + f_equal. field. lra.
    + assert (Hpos : 0 < 15000000 - final_palms_rats) by lra.
      split; intros H.
      * apply (Rmult_le_compat_r _ _ _ (Rlt_le _ _ Hpos)) in H.
        unfold Rdiv in H. rewrite Rmult_assoc, Rinv_l in H by lra. lra.
      * apply Rmult_le_reg_r with (15000000 - final_palms_rats); [assumption|].
        unfold Rdiv. rewrite Rmult_assoc, Rinv_l by lra. lra.
  - intros Hge.
    destruct (Rgt_dec ((15000000 - final_palms_rats) / 522) 0) as [Hp | _]; [lra | reflexivity].
Qed.

(** ** Peaks *)

Lemma fold_left_Rmax_ge_init (xs : list R) (b : R) : b <= fold_left Rmax xs b.
Proof.
  revert b. induction xs as [| x xs IH]; intros b; simpl; [lra|].
  eapply Rle_trans; [apply (Rmax_l b x) | apply IH].
Qed.

Lemma fold_left_Rmax_upper (xs : list R) (b : R) :
  Forall (fun y => y <= fold_left Rmax xs b) xs.
Proof.
  revert b. induction xs as [| x xs IH]; intros b; simpl; constructor.
  - eapply Rle_trans; [apply (Rmax_r b x) | apply fold_left_Rmax_ge_init].
  - apply IH.
Qed.

Lemma argmax_from_spec (xs : list R) (best_index : nat) (best : R) (i : nat) :
  (argmax_from best_index best i xs = best_index /\
   fold_left Rmax xs best = best) \/
  (exists k,
     argmax_from best_index best i xs = (i + k)%nat /\
     nth_error xs k = Some (fold_left Rmax xs best) /\
     best < fold_left Rmax xs best /\
     forall k' y, (k' < k)%nat -> nth_error xs k' = Some y ->
                  y < fold_left Rmax xs best).
Proof.
  revert best_index best i. induction xs as [| x xs IH]; intros bi b i.
  - left. split; reflexivity.
  - simpl. destruct (Rlt_dec b x) as [Hlt | Hge].
    + rewrite (Rmax_right b x) by lra.
      destruct (IH i x (S i)) as [(Ha & Hm) | (k & Ha & Hnth & Hbm & Hbefore)].
      * right. exists 0%nat. rewrite Ha, Hm.
        repeat split; [f_equal; lia | assumption | intros k' y Hk; lia].
      * right. exists (S k). rewrite Ha.
        repeat split; [lia | assumption | lra |].
        intros [| k'] y Hk Hy; simpl in Hy.
        -- injection Hy as <-. assumption.
        -- apply (Hbefore k' y); [lia | assumption].
    + rewrite (Rmax_left b x) by lra.
      destruct (IH bi b (S i)) as [(Ha & Hm) | (k & Ha & Hnth & Hbm & Hbefore)].
      * left. split; assumption.
      * right. exists (S k). rewrite Ha.
        repeat split; [lia | assumption | assumption |].
        intros [| k'] y Hk Hy; simpl in Hy.
        -- injection Hy as <-. lra.
        -- apply (Hbefore k' y); [lia | assumption].
Qed.

(** [max(rats)] bounds every sample and is the sample at [np.argmax(rats)],
    which is the first index where the maximum stands; both raise
    [ValueError] on an empty series. *)
Theorem peak_and_argmax (x : R) (xs : list R) :
  py_max [] = Raised "ValueError" /\
  np_argmax [] = Raised "ValueError" /\
  exists peak index,
    py_max (x :: xs) = Returned peak /\
    np_argmax (x :: xs) = Returned index /\
    nth_error (x :: xs) index = Some peak /\
    Forall (fun y => y <= peak) (x :: xs) /\
    forall k y, (k < index)%nat -> nth_error (x :: xs) k = Some y -> y < peak.
Proof.
  split; [reflexivity|]. split; [reflexivity|].
  exists (fold_left Rmax xs x), (argmax_from 0 x 1 xs).
  split; [reflexivity|]. split; [reflexivity|].
  assert (Hall : Forall (fun y => y <= fold_left Rmax xs x) (x :: xs)).
  { constructor; [apply fold_left_Rmax_ge_init | apply fold_left_Rmax_upper]. }
  destruct (argmax_from_spec xs 0 x 1) as [(Ha & Hm) | (k & Ha & Hnth & Hbm & Hbefore)].
  - rewrite Ha. split; [simpl; rewrite Hm; reflexivity|].
    split; [assumption|]. intros k y Hk. lia.
  - rewrite Ha. split; [simpl; assumption|].
    split; [assumption|].
    intros [| k'] y Hk Hy; simpl in Hy.
    + injection Hy as <-. assumption.
    + apply (Hbefore k' y); [lia | assumption].
Qed.

(** ** When the statistics are computed and when they raise *)

Lemma last_item_returns (xs : list R) :
  xs <> [] -> exists v, last_item xs = Returned v.
Proof.
  destruct xs as [| x xs]; [congruence|].
  intros _. eexists. reflexivity.
Qed.

Lemma item_returns (xs : list R) (i : nat) :
  (i < List.length xs)%nat -> exists v, item xs i = Returned v.
Proof.
  intros Hi. unfold item.
  destruct (nth_error xs i) as [v |] eqn:Hv; [exists v; reflexivity|].
  apply nth_error_None in Hv. lia.
Qed.

Lemma np_argmax_returns (xs : list R) :
  xs <> [] ->
  exists i, np_argmax xs = Returned i /\ (i < List.length xs)%nat.
Proof.
  destruct xs as [| x xs]; [congruence|].
  intros _. eexists. split; [reflexivity|].
  destruct (argmax_from_spec xs 0 x 1) as [(-> & _) | (k & -> & Hnth & _)].
  - simpl. lia.
  - assert (k < List.length xs)%nat by (apply nth_error_Some; congruence).
    simpl. lia.
Qed.

Lemma py_max_returns (xs : list R) :
  xs <> [] -> exists m, py_max xs = Returned m.
Proof.
  destruct xs as [| x xs]; [congruence|].
  intros _. eexists. reflexivity.
Qed.

Lemma milestone_year_returns (dates xs : list R) (threshold : R) :
  (List.length xs <= List.length dates)%nat ->
  exists year, milestone_year dates xs threshold = Returned year.
Proof.
  intros Hlen. unfold milestone_year, np_where.
  destruct (where_from 0 (below threshold) xs) as [| i rest] eqn:Hw.
  - eexists. reflexivity.
  - destruct (where_from_head _ _ _ _ _ Hw) as (k & x & -> & Hnth & _).
    assert (k < List.length xs)%nat by (apply nth_error_Some; congruence).
    destruct (item_returns dates (0 + k)) as (d & ->); [simpl; lia|].
    eexists. reflexivity.
Qed.

Lemma milestone_rows_returns
    (dates_rats total_palms_rats dates_humans total_palms_humans ths : list R) :
  (List.length total_palms_rats <= List.length dates_rats)%nat ->
  (List.length total_palms_humans <= List.length dates_humans)%nat ->
  exists rows,
    milestone_rows dates_rats total_palms_rats dates_humans total_palms_humans ths =
      Returned rows /\
    map row_threshold rows = ths.
Proof.
  intros Hr Hh. induction ths as [| th ths IH].
  - exists []. split; reflexivity.
  - destruct IH as (rows & Hrows & Hths).
    destruct (milestone_year_returns dates_rats total_palms_rats th Hr) as (yr & Hyr).
    destruct (milestone_year_returns dates_humans total_palms_humans th Hh) as (yh & Hyh).
    simpl. unfold milestone_row. rewrite Hyr, Hyh. simpl. rewrite Hrows. simpl.
    eexists. split; [reflexivity|]. simpl. rewrite Hths. reflexivity.
Qed.

Lemma length_nonempty (xs ys : list R) :
  xs <> [] -> List.length ys = List.length xs -> ys <> [].
Proof.
  intros Hxs Hlen ->. destruct xs; [congruence | discriminate].
Qed.

(** On series that are not empty and all of one length, as the two runs of
    a comparison give them, [print_comparison_statistics] raises nothing: it
    reports the last sample of each tree series as the final count, their
    difference as the additional loss, and one milestone row per threshold,
    in the order of the thresholds. *)
Theorem print_comparison_statistics_returns
    (t_rats total_palms_rats rats_rats
     t_humans total_palms_humans rats_humans : list R) :
  t_rats <> [] ->
  List.length total_palms_rats = List.length t_rats ->
  List.length rats_rats = List.length t_rats ->
  List.length t_humans = List.length t_rats ->
  List.length total_palms_humans = List.length t_rats ->
  List.length rats_humans = List.length t_rats ->
  exists stats,
    print_comparison_statistics t_rats total_palms_rats rats_rats
      t_humans total_palms_humans rats_humans = Returned stats /\
    last_item total_palms_rats = Returned (final_palms_rats stats) /\
    last_item total_palms_humans = Returned (final_palms_humans stats) /\
    additional_palm_loss stats = final_palms_rats stats - final_palms_humans stats /\
    py_max rats_rats = Returned (peak_rats_rats stats) /\
    py_max rats_humans = Returned (peak_rats_humans stats) /\
    map row_threshold (milestones stats) = thresholds.
Proof.
  intros Ht Htr Hrr Hth Hthu Hrh.
  destruct (last_item_returns t_rats Ht) as (v1 & E1).
  destruct (last_item_returns total_palms_rats (length_nonempty _ _ Ht Htr)) as (v2 & E2).
  destruct (last_item_returns total_palms_humans (length_nonempty _ _ Ht Hthu)) as (v3 & E3).
  destruct (last_item_returns rats_rats (length_nonempty _ _ Ht Hrr)) as (v4 & E4).
  destruct (last_item_returns rats_humans (length_nonempty _ _ Ht Hrh)) as (v5 & E5).
  destruct (py_max_returns rats_rats (length_nonempty _ _ Ht Hrr)) as (m1 & E6).
  destruct (py_max_returns rats_humans (length_nonempty _ _ Ht Hrh)) as (m2 & E7).
  destruct (np_argmax_returns rats_rats (length_nonempty _ _ Ht Hrr)) as (a1 & E8 & Ha1).
  destruct (np_argmax_returns rats_humans (length_nonempty _ _ Ht Hrh)) as (a2 & E9 & Ha2).
  destruct (item_returns (dates_of t_rats) a1) as (d1 & E10).
  { unfold dates_of. rewrite length_map. lia. }
  destruct (item_returns (dates_of t_humans) a2) as (d2 & E11).
  { unfold dates_of. rewrite length_map. lia. }
  destruct (milestone_rows_returns (dates_of t_rats) total_palms_rats
              (dates_of t_humans) total_palms_humans thresholds)
    as (rows & E12 & Hrows).
  { unfold dates_of. rewrite length_map. lia. }
  { unfold dates_of. rewrite length_map. lia. }
  unfold print_comparison_statistics.
  rewrite E1, E2, E3, E4, E5, E6, E7, E8. cbn [bind].
  rewrite E10. cbn [bind]. rewrite E9. cbn [bind].
  rewrite E11. cbn [bind]. rewrite E12. cbn [bind].
  eexists. split; [reflexivity|]. simpl.
  repeat split; assumption.
Qed.

Lemma print_comparison_statistics_returns_witness :
  exists stats,
    print_comparison_statistics [0; 1] [15000000; 14000000] [2; 100]
      [0; 1] [15000000; 12000000] [2; 90] = Returned stats /\
    last_item [15000000; 14000000] = Returned (final_palms_rats stats) /\
    last_item [15000000; 12000000] = Returned (final_palms_humans stats) /\
    additional_palm_loss stats = final_palms_rats stats - final_palms_humans stats /\
    py_max [2; 100] = Returned (peak_rats_rats stats) /\
    py_max [2; 90] = Returned (peak_rats_humans stats) /\
    map row_threshold (milestones stats) = thresholds.
Proof.
  apply (print_comparison_statistics_returns [0; 1] [15000000; 14000000] [2; 100]
           [0; 1] [15000000; 12000000] [2; 90]);
    try reflexivity.
  discriminate.
Defined.

(** An empty series makes [print_comparison_statistics] raise [IndexError]
    before anything is reported: each of the five series whose last sample
    is read must hold at least one sample. *)
Theorem print_comparison_statistics_empty_raises
    (t_rats total_palms_rats rats_rats
     t_humans total_palms_humans rats_humans : list R) :
  t_rats = [] \/ total_palms_rats = [] \/ total_palms_humans = [] \/
  rats_rats = [] \/ rats_humans = [] ->
  print_comparison_statistics t_rats total_palms_rats rats_rats
    t_humans total_palms_humans rats_humans = Raised "IndexError".
Proof.
  intros H. unfold print_comparison_statistics.
  destruct t_rats as [| a1 l1]; [reflexivity|].
  destruct total_palms_rats as [| a2 l2]; [reflexivity|].
  destruct total_palms_humans as [| a3 l3]; [reflexivity|].
  destruct rats_rats as [| a4 l4]; [reflexivity|].
  destruct rats_humans as [| a5 l5]; [reflexivity|].
  destruct H as [H | [H | [H | [H | H]]]]; discriminate.
Qed.

Lemma print_comparison_statistics_empty_raises_witness :
  print_comparison_statistics [0; 1] [15000000; 14000000] [2; 100]
    [0; 1] [] [2; 90] = Raised "IndexError".
Proof.
  apply (print_comparison_statistics_empty_raises [0; 1] [15000000; 14000000]
           [2; 100] [0; 1] [] [2; 90]).
  right. right. left. reflexivity.
Defined.

(** * The taphonomic model *)

Lemma fragment_area_fraction_quarter (rho : R) :
  PalmNutGnawModel.fragment_area_fraction rho = rho ^ 2 / 4.
Proof.
  unfold PalmNutGnawModel.fragment_area_fraction.
  field. apply PI_neq0.
Qed.

Lemma overlap_area_square (self : PalmNutGnawModel.model) (rho : R) :
  0 <= PalmNutGnawModel.hole_fraction self ->
  0 <= rho ->
  PalmNutGnawModel.overlap_area_approx self rho =
  (sqrt (PalmNutGnawModel.hole_fraction self) + rho / 2) ^ 2.
Proof.
  intros Hh Hrho.
  unfold PalmNutGnawModel.overlap_area_approx.
  rewrite fragment_area_fraction_quarter.
  replace (rho ^ 2 / 4) with ((rho / 2) * (rho / 2)) by field.
  rewrite sqrt_mult by (try assumption; apply Rmult_le_pos; lra).
  rewrite sqrt_square by lra.
  pose proof (sqrt_sqrt _ Hh) as Hs.
  set (s := sqrt (PalmNutGnawModel.hole_fraction self)) in *.
  rewrite <- Hs at 1. ring.
Qed.

Lemma overlap_area_ge_hole (self : PalmNutGnawModel.model) (rho : R) :
  0 <= PalmNutGnawModel.hole_fraction self ->
  0 <= rho ->
  PalmNutGnawModel.hole_fraction self <= PalmNutGnawModel.overlap_area_approx self rho.
Proof.
  intros Hh Hrho.
  unfold PalmNutGnawModel.overlap_area_approx.
  rewrite fragment_area_fraction_quarter.
  pose proof (sqrt_pos (PalmNutGnawModel.hole_fraction self * (rho ^ 2 / 4))).
  pose proof (pow2_ge_0 rho). lra.
Qed.

(** For a hole fraction and a fragment radius that are not negative, the
    overlap area of [analytical_approximation] is the square of
    [sqrt hole_fraction + radius / 2]; the estimate is a fraction between 0
    and 1, it is the baseline [1 - min(1, hole_fraction)] for fragments of
    radius 0, and for a hole fraction of at most 1 it never exceeds the
    estimate of [simple_probability_model]. *)
Theorem analytical_approximation_closed_form
    (self : PalmNutGnawModel.model) (mean_fragment_radius_fraction : R) :
  0 <= PalmNutGnawModel.hole_fraction self ->
  0 <= mean_fragment_radius_fraction ->
  PalmNutGnawModel.analytical_approximation self mean_fragment_radius_fraction =
    1 - Rmin 1 ((sqrt (PalmNutGnawModel.hole_fraction self) +
                 mean_fragment_radius_fraction / 2) ^ 2) /\
  0 <= PalmNutGnawModel.analytical_approximation self mean_fragment_radius_fraction <= 1 /\
  PalmNutGnawModel.analytical_approximation self 0 =
    1 - Rmin 1 (PalmNutGnawModel.hole_fraction self) /\
  (PalmNutGnawModel.hole_fraction self <= 1 ->
   PalmNutGnawModel.analytical_approximation self mean_fragment_radius_fraction <=
   PalmNutGnawModel.simple_probability_model self).
Proof.
  intros Hh Hrho.
  pose proof (overlap_area_ge_hole self _ Hh Hrho) as Hge.
  unfold PalmNutGnawModel.analytical_approximation,
    PalmNutGnawModel.simple_probability_model.
  split; [rewrite overlap_area_square by assumption; reflexivity|].
  split; [| split].
  - split.
    + pose proof (Rmin_l 1 (PalmNutGnawModel.overlap_area_approx self
                              mean_fragment_radius_fraction)). lra.
    + assert (0 <= Rmin 1 (PalmNutGnawModel.overlap_area_approx self
                             mean_fragment_radius_fraction))
        by (apply Rmin_glb; lra).
      lra.
  - rewrite overlap_area_square by lra.
    replace ((sqrt (PalmNutGnawModel.hole_fraction self) + 0 / 2) ^ 2)
      with (sqrt (PalmNutGnawModel.hole_fraction self) *
            sqrt (PalmNutGnawModel.hole_fraction self)) by field.
    rewrite sqrt_sqrt by assumption. reflexivity.
  - intros Hh1.
    assert (PalmNutGnawModel.hole_fraction self <=
            Rmin 1 (PalmNutGnawModel.overlap_area_approx self
                      mean_fragment_radius_fraction))
      by (apply Rmin_glb; assumption).
    lra.
Qed.

Lemma analytical_approximation_closed_form_witness :
  PalmNutGnawModel.analytical_approximation (PalmNutGnawModel.init (2 / 10) 1) (1 / 10) =
    1 - Rmin 1 ((sqrt (PalmNutGnawModel.hole_fraction (PalmNutGnawModel.init (2 / 10) 1)) +
                 1 / 10 / 2) ^ 2) /\
  0 <= PalmNutGnawModel.analytical_approximation
         (PalmNutGnawModel.init (2 / 10) 1) (1 / 10) <= 1 /\
  PalmNutGnawModel.analytical_approximation (PalmNutGnawModel.init (2 / 10) 1) 0 =
    1 - Rmin 1 (PalmNutGnawModel.hole_fraction (PalmNutGnawModel.init (2 / 10) 1)) /\
  (PalmNutGnawModel.hole_fraction (PalmNutGnawModel.init (2 / 10) 1) <= 1 ->
   PalmNutGnawModel.analytical_approximation
     (PalmNutGnawModel.init (2 / 10) 1) (1 / 10) <=
   PalmNutGnawModel.simple_probability_model (PalmNutGnawModel.init (2 / 10) 1)).
Proof.
  apply (analytical_approximation_closed_form
           (PalmNutGnawModel.init (2 / 10) 1) (1 / 10)); simpl; lra.
Defined.

(** Larger fragments and larger holes both lower the analytical estimate of
    the fraction of fragments without gnaw marks. *)
Theorem analytical_approximation_monotone
    (self self' : PalmNutGnawModel.model) (rho rho' : R) :
  0 <= PalmNutGnawModel.hole_fraction self ->
  PalmNutGnawModel.hole_fraction self <= PalmNutGnawModel.hole_fraction self' ->
  0 <= rho ->
  rho <= rho' ->
  PalmNutGnawModel.analytical_approximation self' rho' <=
  PalmNutGnawModel.analytical_approximation self rho.
Proof.
  intros Hh Hhh Hrho Hrr.
  unfold PalmNutGnawModel.analytical_approximation.
  rewrite !overlap_area_square by lra.
  pose proof (sqrt_pos (PalmNutGnawModel.hole_fraction self)) as Hs.
  pose proof (sqrt_le_1_alt _ _ Hhh) as Hss.
  set (s := sqrt (PalmNutGnawModel.hole_fraction self)) in *.
  set (s' := sqrt (PalmNutGnawModel.hole_fraction self')) in *.
  assert (Hsq : (s + rho / 2) ^ 2 <= (s' + rho' / 2) ^ 2).
  { apply pow_incr. lra. }
  pose proof (Rle_min_compat_l _ _ 1 Hsq). lra.
Qed.

Lemma analytical_approximation_monotone_witness :
  PalmNutGnawModel.analytical_approximation (PalmNutGnawModel.init (4 / 10) 1) (2 / 10) <=
  PalmNutGnawModel.analytical_approximation (PalmNutGnawModel.init (2 / 10) 1) (1 / 10).
Proof.
  apply (analytical_approximation_monotone
           (PalmNutGnawModel.init (2 / 10) 1) (PalmNutGnawModel.init (4 / 10) 1)
           (1 / 10) (2 / 10)); simpl; lra.
Defined.

(** ** The log-normal parameters of [fragment_size_model] *)

Lemma sigma_squared (fragment_area_cv : R) :
  PalmNutGnawModel.sigma fragment_area_cv ^ 2 = ln (1 + fragment_area_cv ^ 2).
Proof.
  unfold PalmNutGnawModel.sigma.
  apply pow2_sqrt.
  pose proof (pow2_ge_0 fragment_area_cv) as Hc.
  destruct Hc as [Hpos | Hzero].
  - rewrite <- ln_1. left. apply ln_increasing; lra.
  - rewrite <- Hzero, Rplus_0_r, ln_1. apply Rle_refl.
Qed.

(** The shape and location parameters handed to [np.random.lognormal] give
    back what was asked for: a log-normal law with these parameters has mean
    [exp (mu + sigma^2 / 2)], which is [mean_fragment_area], and squared
    coefficient of variation [exp (sigma^2) - 1], which is
    [fragment_area_cv] squared. *)
Theorem lognormal_parameters_round_trip (mean_fragment_area fragment_area_cv : R) :
  0 < mean_fragment_area ->
  exp (PalmNutGnawModel.mu mean_fragment_area fragment_area_cv +
       PalmNutGnawModel.sigma fragment_area_cv ^ 2 / 2) = mean_fragment_area /\
  exp (PalmNutGnawModel.sigma fragment_area_cv ^ 2) - 1 = fragment_area_cv ^ 2.
Proof.
  intros Hmean.
  pose proof (pow2_ge_0 fragment_area_cv) as Hc.
  split.
  - unfold PalmNutGnawModel.mu.
    replace (ln mean_fragment_area - 5 / 10 * PalmNutGnawModel.sigma fragment_area_cv ^ 2 +
             PalmNutGnawModel.sigma fragment_area_cv ^ 2 / 2)
      with (ln mean_fragment_area) by field.
    apply exp_ln. assumption.
  - rewrite sigma_squared, exp_ln by lra. ring.
Qed.

Lemma lognormal_parameters_round_trip_witness :
  exp (PalmNutGnawModel.mu (1 / 10) (5 / 10) +
       PalmNutGnawModel.sigma (5 / 10) ^ 2 / 2) = 1 / 10 /\
  exp (PalmNutGnawModel.sigma (5 / 10) ^ 2) - 1 = (5 / 10) ^ 2.
Proof.
  apply (lognormal_parameters_round_trip (1 / 10) (5 / 10)). lra.
Defined.

(** ** One draw of fragment sizes *)

Lemma np_sum_scaled (xs : list R) (c : R) :
  PalmNutGnawModel.np_sum (map (fun x => x / c) xs) = PalmNutGnawModel.np_sum xs / c.
Proof.
  unfold PalmNutGnawModel.np_sum.
  induction xs as [| x xs IH]; simpl.
  - unfold Rdiv. ring.
  - rewrite IH. unfold Rdiv. ring.
Qed.

Lemma np_sum_positive (xs : list R) :
  xs <> [] -> Forall (fun x => 0 < x) xs -> 0 < PalmNutGnawModel.np_sum xs.
Proof.
  unfold PalmNutGnawModel.np_sum.
  intros Hne Hall. induction Hall as [| x xs Hx Hxs IH]; [congruence|].
  simpl. destruct xs as [| y ys].
  - simpl. lra.
  - assert (0 < fold_right Rplus 0 (y :: ys)) by (apply IH; discriminate). lra.
Qed.

(** Between the two random draws of [fragment_size_model]: positive fragment
    sizes are normalised to sum to 1, each to a share in (0, 1], and with a
    hole fraction that is not negative every probability handed to the
    binomial draw is a probability, at least [min(1, hole_fraction)]. *)
Theorem gnaw_probabilities_are_probabilities
    (self : PalmNutGnawModel.model) (fragment_sizes : list R) :
  fragment_sizes <> [] ->
  Forall (fun size => 0 < size) fragment_sizes ->
  0 <= PalmNutGnawModel.hole_fraction self ->
  PalmNutGnawModel.np_sum (PalmNutGnawModel.normalize fragment_sizes) = 1 /\
  Forall (fun size => 0 < size <= 1) (PalmNutGnawModel.normalize fragment_sizes) /\
  Forall (fun p => Rmin 1 (PalmNutGnawModel.hole_fraction self) <= p <= 1)
         (PalmNutGnawModel.gnaw_probabilities self
            (PalmNutGnawModel.normalize fragment_sizes)) /\
  List.length (PalmNutGnawModel.gnaw_probabilities self
                 (PalmNutGnawModel.normalize fragment_sizes)) =
    List.length fragment_sizes.
Proof.
  intros Hne Hpos Hh.
  pose proof (np_sum_positive fragment_sizes Hne Hpos) as Hsum.
  assert (Hshare : Forall (fun size => 0 < size <= 1)
                     (PalmNutGnawModel.normalize fragment_sizes)).
  { unfold PalmNutGnawModel.normalize.
    set (total := PalmNutGnawModel.np_sum fragment_sizes) in *.
    assert (Hle : Forall (fun x => 0 < x <= total) fragment_sizes).
    { subst total. clear Hne Hsum. unfold PalmNutGnawModel.np_sum.
      induction Hpos as [| x xs Hx Hxs IH]; constructor.
      - simpl. split; [assumption|].
        assert (0 <= fold_right Rplus 0 xs).
        { clear IH. induction Hxs as [| y ys Hy _ IHy]; simpl; lra. }
        lra.
      - eapply Forall_impl; [| exact IH].
        simpl. intros a [Ha0 Ha1]. split; lra. }
    apply Forall_map. eapply Forall_impl; [| exact Hle].
    simpl. intros a [Ha0 Ha1]. split.
    - apply Rdiv_lt_0_compat; assumption.
    - apply Rmult_le_reg_r with total; [assumption|].
      unfold Rdiv. rewrite Rmult_assoc, Rinv_l by lra. lra. }
  split; [| split; [exact Hshare | split]].
  - unfold PalmNutGnawModel.normalize. rewrite np_sum_scaled.
    field. lra.
  - unfold PalmNutGnawModel.gnaw_probabilities.
    apply Forall_map. eapply Forall_impl; [| exact Hshare].
    simpl. intros a [Ha0 Ha1]. split.
    + apply Rle_min_compat_l. lra.
    + apply Rmin_l.
  - unfold PalmNutGnawModel.gnaw_probabilities, PalmNutGnawModel.normalize.
    rewrite !length_map. reflexivity.
Qed.

Lemma gnaw_probabilities_are_probabilities_witness :
  PalmNutGnawModel.np_sum (PalmNutGnawModel.normalize [1; 2; 5]) = 1 /\
  Forall (fun size => 0 < size <= 1) (PalmNutGnawModel.normalize [1; 2; 5]) /\
  Forall (fun p => Rmin 1 (PalmNutGnawModel.hole_fraction
                             (PalmNutGnawModel.init (2 / 10) 1)) <= p <= 1)
         (PalmNutGnawModel.gnaw_probabilities (PalmNutGnawModel.init (2 / 10) 1)
            (PalmNutGnawModel.normalize [1; 2; 5])) /\
  List.length (PalmNutGnawModel.gnaw_probabilities (PalmNutGnawModel.init (2 / 10) 1)
                 (PalmNutGnawModel.normalize [1; 2; 5])) =
    List.length [1; 2; 5].
Proof.
  apply (gnaw_probabilities_are_probabilities
           (PalmNutGnawModel.init (2 / 10) 1) [1; 2; 5]).
  - discriminate.
  - repeat constructor; lra.
  - simpl. lra.
Defined.

(** [1 - np.sum(contains_gnaw) / len(fragment_sizes)] is a fraction: with
    one 0-or-1 outcome per fragment it lies between 0 and 1, it is 0 when
    every fragment holds a gnaw mark and 1 when none does. *)
Theorem fraction_without_is_a_fraction (contains_gnaw : list R) :
  contains_gnaw <> [] ->
  Forall (fun c => c = 0 \/ c = 1) contains_gnaw ->
  0 <= PalmNutGnawModel.fraction_without contains_gnaw (List.length contains_gnaw) <= 1 /\
  (Forall (fun c => c = 1) contains_gnaw ->
   PalmNutGnawModel.fraction_without contains_gnaw (List.length contains_gnaw) = 0) /\
  (Forall (fun c => c = 0) contains_gnaw ->
   PalmNutGnawModel.fraction_without contains_gnaw (List.length contains_gnaw) = 1).
Proof.
  intros Hne Hbits.
  assert (Hn : 0 < INR (List.length contains_gnaw)).
  { apply lt_0_INR. destruct contains_gnaw; [congruence | simpl; lia]. }
  assert (Hsum : 0 <= PalmNutGnawModel.np_sum contains_gnaw <=
                 INR (List.length contains_gnaw)).
  { clear Hne Hn. unfold PalmNutGnawModel.np_sum.
    induction Hbits as [| c cs Hc _ IH]; [simpl; lra|].
    change (List.length (c :: cs)) with (S (List.length cs)).
    rewrite S_INR. simpl. destruct Hc as [-> | ->]; lra. }
  unfold PalmNutGnawModel.fraction_without.
  assert (Hq : 0 <= PalmNutGnawModel.np_sum contains_gnaw /
                    INR (List.length contains_gnaw) <= 1).
  { split.
    - apply Rmult_le_pos; [lra|]. left. apply Rinv_0_lt_compat. assumption.
    - apply Rmult_le_reg_r with (INR (List.length contains_gnaw)); [assumption|].
      unfold Rdiv. rewrite Rmult_assoc, Rinv_l by lra. lra. }
  split; [lra|]. split.
  - intros Hall.
    assert (Hs : PalmNutGnawModel.np_sum contains_gnaw =
                 INR (List.length contains_gnaw)).
    { clear - Hall. unfold PalmNutGnawModel.np_sum.
      induction Hall as [| c cs Hc _ IH]; [reflexivity|].
      change (List.length (c :: cs)) with (S (List.length cs)).
      rewrite S_INR. simpl. rewrite IH, Hc. ring. }
    rewrite Hs. field. lra.
  - intros Hall.
    assert (Hs : PalmNutGnawModel.np_sum contains_gnaw = 0).
    { clear - Hall. unfold PalmNutGnawModel.np_sum.
      induction Hall as [| c cs Hc _ IH]; [reflexivity|].
      simpl. rewrite IH, Hc. ring. }
    rewrite Hs. unfold Rdiv. ring.
Qed.

Lemma fraction_without_is_a_fraction_witness :
  0 <= PalmNutGnawModel.fraction_without [1; 0; 0; 1; 0] (List.length [1; 0; 0; 1; 0]) <= 1 /\
  (Forall (fun c => c = 1) [1; 0; 0; 1; 0] ->
   PalmNutGnawModel.fraction_without [1; 0; 0; 1; 0] (List.length [1; 0; 0; 1; 0]) = 0) /\
  (Forall (fun c => c = 0) [1; 0; 0; 1; 0] ->
   PalmNutGnawModel.fraction_without [1; 0; 0; 1; 0] (List.length [1; 0; 0; 1; 0]) = 1).
Proof.
  apply (fraction_without_is_a_fraction [1; 0; 0; 1; 0]).
  - discriminate.
  - repeat (apply Forall_cons;
            [first [left; reflexivity | right; reflexivity] |]).
    apply Forall_nil.
Defined.

(** [max(5, int(1 / mean_fragment_area))]: a mean area of [1/k] of the shell
    gives [k] fragments, but never fewer than 5; any mean area above a sixth
    of the shell gives 5 fragments. *)
Theorem n_fragments_floor (mean_fragment_area : R) (k : Z) :
  (5 <= PalmNutGnawModel.n_fragments mean_fragment_area)%Z /\
  ((1 <= k)%Z -> PalmNutGnawModel.n_fragments (1 / IZR k) = Z.max 5 k) /\
  (1 / 6 < mean_fragment_area -> PalmNutGnawModel.n_fragments mean_fragment_area = 5%Z).
Proof.
  unfold PalmNutGnawModel.n_fragments.
  split; [lia|]. split.
  - intros Hk.
    assert (0 < IZR k) by (apply IZR_lt; lia).
    replace (1 / (1 / IZR k)) with (IZR k) by (field; lra).
    rewrite py_int_IZR. reflexivity.
  - intros Hmean.
    assert (Hinv : 0 < 1 / mean_fragment_area < 6).
    { split.
      - apply Rdiv_lt_0_compat; lra.
      - apply Rmult_lt_reg_r with mean_fragment_area; [lra|].
        unfold Rdiv. rewrite Rmult_assoc, Rinv_l by lra. lra. }
    pose proof (py_int_monotone 0 (1 / mean_fragment_area) ltac:(lra)) as Hlo.
    rewrite (py_int_IZR 0) in Hlo.
    assert (Hhi : (py_int (1 / mean_fragment_area) < 6)%Z).
    { unfold py_int. destruct (Rle_dec 0 (1 / mean_fragment_area)) as [_ | Hn]; [| lra].
      destruct (base_Int_part (1 / mean_fragment_area)) as [Hb _].
      apply lt_IZR. lra. }
    lia.
Qed.

(** ** Where the gnaw hole is placed *)

Lemma hole_y_max_squared (hole_x : R) :
  -1 <= hole_x <= 1 ->
  PalmNutGnawModel.hole_y_max hole_x ^ 2 = 1 - hole_x ^ 2.
Proof.
  intros [Hlo Hhi]. unfold PalmNutGnawModel.hole_y_max.
  rewrite pow2_sqrt; [ring|].
  assert (0 <= (1 - hole_x) * (1 + hole_x)) by (apply Rmult_le_pos; lra).
  lra.
Qed.

Lemma hole_y_max_below_1 (hole_x : R) :
  -1 <= hole_x <= 1 -> hole_x <> 0 -> PalmNutGnawModel.hole_y_max hole_x < 1.
Proof.
  intros Hx Hne.
  pose proof (hole_y_max_squared hole_x Hx) as Hsq.
  assert (Hpos : 0 <= PalmNutGnawModel.hole_y_max hole_x)
    by (unfold PalmNutGnawModel.hole_y_max; apply sqrt_pos).
  assert (Hx2 : 0 < hole_x ^ 2).
  { destruct (Rtotal_order hole_x 0) as [Hn | [Hz | Hp]]; [| contradiction |].
    - replace (hole_x ^ 2) with ((- hole_x) * (- hole_x)) by ring.
      apply Rmult_lt_0_compat; lra.
    - replace (hole_x ^ 2) with (hole_x * hole_x) by ring.
      apply Rmult_lt_0_compat; lra. }
  destruct (Rlt_dec (PalmNutGnawModel.hole_y_max hole_x) 1) as [Hlt | Hge];
    [assumption|].
  exfalso.
  assert (1 <= PalmNutGnawModel.hole_y_max hole_x ^ 2).
  { replace 1 with (1 ^ 2) by ring. apply pow_incr. lra. }
  lra.
Qed.

Lemma centre_too_far (hole_radius hole_x hole_y : R) :
  (1 - hole_radius) ^ 2 < hole_x ^ 2 + hole_y ^ 2 ->
  1 < sqrt (hole_x ^ 2 + hole_y ^ 2) + hole_radius.
Proof.
  intros Hfar.
  destruct (Rle_dec 0 (1 - hole_radius)) as [Hin | Hout].
  - assert (Hlt : sqrt ((1 - hole_radius) ^ 2) < sqrt (hole_x ^ 2 + hole_y ^ 2)).
    { apply sqrt_lt_1_alt. split; [apply pow2_ge_0 | assumption]. }
    replace ((1 - hole_radius) ^ 2) with ((1 - hole_radius) * (1 - hole_radius)) in Hlt
      by ring.
    rewrite sqrt_square in Hlt by assumption. lra.
  - pose proof (sqrt_pos (hole_x ^ 2 + hole_y ^ 2)). lra.
Qed.

(** The bounds from which [geometric_overlap_model] draws the centre of the
    gnaw hole do not keep the hole within the shell.  For any admissible
    abscissa other than 0 and a non-empty range of ordinates, the lowest
    ordinate of the range, which the draw can return, puts part of the hole
    outside the unit circle; so does every ordinate [y] with
    [(1 - hole_radius)^2 - hole_x^2 < y^2]. *)
Theorem gnaw_hole_can_leave_the_shell
    (self : PalmNutGnawModel.model) (hole_x : R) :
  0 < PalmNutGnawModel.hole_radius self ->
  PalmNutGnawModel.hole_x_low self <= hole_x < PalmNutGnawModel.hole_x_high self ->
  hole_x <> 0 ->
  PalmNutGnawModel.hole_y_low self hole_x < PalmNutGnawModel.hole_y_high self hole_x ->
  1 < sqrt (hole_x ^ 2 + PalmNutGnawModel.hole_y_low self hole_x ^ 2) +
      PalmNutGnawModel.hole_radius self /\
  forall hole_y,
    (1 - PalmNutGnawModel.hole_radius self) ^ 2 - hole_x ^ 2 < hole_y ^ 2 ->
    1 < sqrt (hole_x ^ 2 + hole_y ^ 2) + PalmNutGnawModel.hole_radius self.
Proof.
  intros Hr [Hxlo Hxhi] Hne Hrange.
  unfold PalmNutGnawModel.hole_x_low, PalmNutGnawModel.hole_x_high in *.
  unfold PalmNutGnawModel.hole_y_low, PalmNutGnawModel.hole_y_high in *.
  assert (Hx : -1 <= hole_x <= 1) by lra.
  pose proof (hole_y_max_squared hole_x Hx) as Hsq.
  pose proof (hole_y_max_below_1 hole_x Hx Hne) as Hs1.
  set (hr := PalmNutGnawModel.hole_radius self) in *.
  set (s := PalmNutGnawModel.hole_y_max hole_x) in *.
  split.
  - apply centre_too_far.
    assert (Hgap : 0 < 2 * hr * (1 - s)) by (apply Rmult_lt_0_compat; lra).
    replace ((- s + hr) ^ 2) with (s ^ 2 - 2 * s * hr + hr ^ 2) by ring.
    rewrite Hsq.
    replace ((1 - hr) ^ 2) with (1 - 2 * hr + hr ^ 2) by ring.
    lra.
  - intros hole_y Hy. apply centre_too_far. lra.
Qed.

Lemma hole_radius_default_bounds :
  0 < PalmNutGnawModel.hole_radius (PalmNutGnawModel.init (2 / 10) 1) < 1 / 2.
Proof.
  unfold PalmNutGnawModel.hole_radius. simpl.
  pose proof PI2_3_2 as Hpi.
  assert (Hq : 0 < 2 / 10 / PI < 1 / 4).
  { split.
    - apply Rdiv_lt_0_compat; lra.
    - apply Rmult_lt_reg_r with PI; [lra|].
      unfold Rdiv. rewrite Rmult_assoc, Rinv_l by lra. lra. }
  split.
  - apply sqrt_lt_R0. lra.
  - replace (1 / 2) with (sqrt (1 / 4)).
    + apply sqrt_lt_1_alt. lra.
    + replace (1 / 4) with ((1 / 2) * (1 / 2)) by field.
      apply sqrt_square. lra.
Qed.

Lemma hole_y_max_at_half : 1 / 2 < PalmNutGnawModel.hole_y_max (1 / 2).
Proof.
  unfold PalmNutGnawModel.hole_y_max.
  replace (1 / 2) with (sqrt (1 / 4)) at 1.
  - apply sqrt_lt_1_alt. lra.
  - replace (1 / 4) with ((1 / 2) * (1 / 2)) by field.
    apply sqrt_square. lra.
Qed.

Lemma gnaw_hole_can_leave_the_shell_witness :
  1 < sqrt ((1 / 2) ^ 2 +
            PalmNutGnawModel.hole_y_low (PalmNutGnawModel.init (2 / 10) 1) (1 / 2) ^ 2) +
      PalmNutGnawModel.hole_radius (PalmNutGnawModel.init (2 / 10) 1) /\
  forall hole_y,
    (1 - PalmNutGnawModel.hole_radius (PalmNutGnawModel.init (2 / 10) 1)) ^ 2 -
      (1 / 2) ^ 2 < hole_y ^ 2 ->
    1 < sqrt ((1 / 2) ^ 2 + hole_y ^ 2) +
        PalmNutGnawModel.hole_radius (PalmNutGnawModel.init (2 / 10) 1).
Proof.
  apply (gnaw_hole_can_leave_the_shell (PalmNutGnawModel.init (2 / 10) 1) (1 / 2)).
  - apply hole_radius_default_bounds.
  - unfold PalmNutGnawModel.hole_x_low, PalmNutGnawModel.hole_x_high.
    destruct hole_radius_default_bounds. lra.
  - lra.
  - unfold PalmNutGnawModel.hole_y_low, PalmNutGnawModel.hole_y_high.
    destruct hole_radius_default_bounds. pose proof hole_y_max_at_half. lra.
Defined.

(** ** The shell radius *)

(** The model is scale-free, as its documentation says: the constructor
    stores [shell_radius] and the two areas computed from it, and no
    estimate reads them.  Two models with the same hole fraction and
    different radii give the same baseline, the same analytical estimate,
    the same probabilities for a draw of fragments and the same hole radius
    on the unit circle. *)
Theorem shell_radius_is_never_read
    (hole_fraction shell_radius shell_radius' rho : R) (fragment_sizes : list R) :
  PalmNutGnawModel.simple_probability_model
    (PalmNutGnawModel.init hole_fraction shell_radius) =
  PalmNutGnawModel.simple_probability_model
    (PalmNutGnawModel.init hole_fraction shell_radius') /\
  PalmNutGnawModel.analytical_approximation
    (PalmNutGnawModel.init hole_fraction shell_radius) rho =
  PalmNutGnawModel.analytical_approximation
    (PalmNutGnawModel.init hole_fraction shell_radius') rho /\
  PalmNutGnawModel.gnaw_probabilities
    (PalmNutGnawModel.init hole_fraction shell_radius) fragment_sizes =
  PalmNutGnawModel.gnaw_probabilities
    (PalmNutGnawModel.init hole_fraction shell_radius') fragment_sizes /\
  PalmNutGnawModel.hole_radius (PalmNutGnawModel.init hole_fraction shell_radius) =
  PalmNutGnawModel.hole_radius (PalmNutGnawModel.init hole_fraction shell_radius') /\
  (shell_radius <> 0 ->
   PalmNutGnawModel.hole_area (PalmNutGnawModel.init hole_fraction shell_radius) /
   PalmNutGnawModel.shell_surface_area (PalmNutGnawModel.init hole_fraction shell_radius) =
   hole_fraction).
Proof.
  repeat split.
  intros Hr. simpl. field.
  split; [assumption | apply PI_neq0].
Qed.
